(** * So-clip: a shallow embedding of [server.js]

    The server is a thin Express layer over [yt-dlp], [ffmpeg] and the Groq
    speech-to-text / chat-completion API.  This development embeds the pure
    helpers ([formatTime], the clip-name sanitiser, the bracket pattern, the
    comparator used by [sort]), the built-ins they rest on ([JSON.parse],
    [padStart], [substring], [Array.prototype.sort]) and the four effectful
    entry points (the three POST handlers and the cleanup timer) as state
    passing over an explicit world: the two working directories, the external
    calls issued so far and the response sent.

    Conventions.
    - A JavaScript string is its sequence of UTF-16 code units ([list N]).
    - A JavaScript number is modelled by an exact rational.  The rounding of
      binary64, its overflow to [Infinity] and the exponent notation that
      [Number::toString] switches to from [1e21] on are not modelled; the
      quantities of this program (seconds of a video, scores, millisecond
      clocks) stay in the range where both agree.
    - [undefined] is [None] in an [option value].
    - An exception is the [Err] branch of [result]; an [async] handler whose
      run ends in [Err] has rejected, and nothing answers the request.
    - Console output has no effect on any result and is left out; what
      remains of a [console.log] is the evaluation of its argument, which can
      throw when it is a template literal over values of the request. *)

From Stdlib Require Import ZArith QArith Qround Lia Lqa List Ascii String DecimalString.
From Stdlib Require Import Sorting.Sorted Sorting.Permutation.
From Stdlib Require DecimalZ DecimalPos.
From stdpp Require Import gmap list.
Import ListNotations.

Set Warnings "-register-all".
Open Scope Z_scope.

(** ** Strings *)

Abbreviation jsstring := (list N).

(** An ASCII literal as code units (every character below 128). *)
Definition lit (s : string) : jsstring :=
  map N_of_ascii (list_ascii_of_string s).

(** A literal written with apostrophes standing for double quotes. *)
Definition dq (s : string) : jsstring :=
  map (fun c => if (c =? 39)%N then 34%N else c) (lit s).

Definition nl : jsstring := [10%N].

(** [Array.prototype.join] on strings. *)
Fixpoint join (sep : jsstring) (parts : list jsstring) : jsstring :=
  match parts with
  | [] => []
  | [p] => p
  | p :: rest => p ++ sep ++ join sep rest
  end.

(** [String.prototype.padStart]. *)
Definition padStart (targetLength : nat) (padString s : jsstring) : jsstring :=
  let fillLen := (targetLength - length s)%nat in
  match padString with
  | [] => s
  | _ => take fillLen (concat (replicate fillLen padString)) ++ s
  end.

(** [String.prototype.substring] for [0 <= from <= to]. *)
Definition substring (from to : nat) (s : jsstring) : jsstring :=
  take (to - from) (drop from s).

(** ** Numbers *)

(** [Number::toString] of an integer: its decimal digits, with a leading
    minus sign when negative. *)
Definition Number_toString (z : Z) : jsstring :=
  lit (NilZero.string_of_int (Z.to_int z)).

Definition Math_floor (x : Q) : Z := Qfloor x.

(** Rounding toward zero, as the [%] operator does. *)
Definition Qtrunc (x : Q) : Z :=
  if Qle_bool 0 x then Qfloor x else Qceiling x.

(** [x % y] for a non-zero [y]: the remainder takes the sign of [x]. *)
Definition js_rem (x y : Q) : Q :=
  (x - y * inject_Z (Qtrunc (x / y)))%Q.

(** Strict comparison of two numbers. *)
Definition Qltb (x y : Q) : bool := negb (Qle_bool y x).

(** ** formatTime (server.js, lines 258-262) *)

Definition formatTime (seconds : Q) : jsstring :=
  let mins := Math_floor (seconds / 60)%Q in
  let secs := Math_floor (js_rem seconds 60) in
  Number_toString mins ++ lit ":" ++ padStart 2 (lit "0") (Number_toString secs).

(** The contract of section 4.1 of the specification, in its own words:
    the floor of [s / 60], a colon, and the floor of [s mod 60] written with
    exactly two digits. *)
Definition digit (d : Z) : N := (48 + Z.to_N d)%N.

Definition two_digits (n : Z) : jsstring := [digit (n / 10); digit (n mod 10)].

Definition Qmod (x : Q) (m : Z) : Q :=
  (x - inject_Z m * inject_Z (Qfloor (x / inject_Z m)))%Q.

Definition formatTime_spec (s : Q) : jsstring :=
  Number_toString (Qfloor (s / 60)%Q) ++ [58%N] ++ two_digits (Qfloor (Qmod s 60)).

(** ** JSON values, exceptions *)

(** What [JSON.parse] produces.  An object keeps its members in source order;
    when a key is repeated the last occurrence is the one a property read
    sees. *)
Inductive value :=
| VNull
| VBool (b : bool)
| VNum (q : Q)
| VStr (s : jsstring)
| VArr (items : list value)
| VObj (members : list (jsstring * value)).

(** The result of an arithmetic expression. *)
Inductive number :=
| Finite (q : Q)
| PosInf
| NegInf
| NaN.

Inductive exn :=
| TypeError                       (* raised by the runtime *)
| SyntaxError                     (* raised by JSON.parse *)
| SystemError (code : jsstring)   (* raised by the fs module *)
| Error (message : jsstring).     (* new Error(...), a failed child process,
                                     a rejected API call *)

Inductive result (A : Type) :=
| Ok (a : A)
| Err (e : exn).
Arguments Ok {A} a.
Arguments Err {A} e.

#[global] Instance result_ret : MRet result := fun A a => Ok a.
#[global] Instance result_bind : MBind result := fun A B f m =>
  match m with
  | Ok a => f a
  | Err e => Err e
  end.

(** ** JSON.parse *)

Inductive parsed (A : Type) :=
| Parsed (a : A) (rest : jsstring)
| Unexpected
| OutOfFuel.
Arguments Parsed {A} a rest.
Arguments Unexpected {A}.
Arguments OutOfFuel {A}.

Definition parsed_map {A B} (f : A -> B) (p : parsed A) : parsed B :=
  match p with
  | Parsed a rest => Parsed (f a) rest
  | Unexpected => Unexpected
  | OutOfFuel => OutOfFuel
  end.

Definition is_ws (c : N) : bool :=
  ((c =? 9) || (c =? 10) || (c =? 13) || (c =? 32))%N.

Definition is_digit (c : N) : bool := ((48 <=? c) && (c <=? 57))%N.

Fixpoint skip_ws (s : jsstring) : jsstring :=
  match s with
  | c :: r => if is_ws c then skip_ws r else s
  | [] => []
  end.

(** The longest prefix of decimal digits, and what follows it. *)
Fixpoint span_digits (s : jsstring) : jsstring * jsstring :=
  match s with
  | c :: r =>
      if is_digit c then let (ds, rest) := span_digits r in (c :: ds, rest)
      else ([], s)
  | [] => ([], [])
  end.

Definition digits_value (ds : jsstring) : Z :=
  fold_left (fun acc d => 10 * acc + (Z.of_N d - 48)) ds 0.

(** [m * 10 ^ e] as a rational. *)
Definition scale10 (m e : Z) : Q :=
  if 0 <=? e then inject_Z (m * 10 ^ e)
  else Qmake m (Z.to_pos (10 ^ (- e))).

(** The integer part: a single zero, or digits that do not start with zero. *)
Definition parse_int_part (s : jsstring) : option (jsstring * jsstring) :=
  match s with
  | c :: r =>
      if (c =? 48)%N then Some ([c], r)
      else if is_digit c then Some (span_digits s)
      else None
  | [] => None
  end.

Definition parse_frac_part (s : jsstring) : option (jsstring * jsstring) :=
  match s with
  | c :: r =>
      if (c =? 46)%N then
        match span_digits r with
        | ([], _) => None
        | (ds, rest) => Some (ds, rest)
        end
      else Some ([], s)
  | [] => Some ([], [])
  end.

Definition parse_exp_part (s : jsstring) : option (Z * jsstring) :=
  match s with
  | c :: r =>
      if ((c =? 101) || (c =? 69))%N then
        let '(neg, r1) :=
          match r with
          | sg :: r' =>
              if (sg =? 45)%N then (true, r')
              else if (sg =? 43)%N then (false, r')
              else (false, r)
          | [] => (false, r)
          end in
        match span_digits r1 with
        | ([], _) => None
        | (ds, rest) =>
            Some (if neg : bool then - digits_value ds else digits_value ds, rest)
        end
      else Some (0, s)
  | [] => Some (0, [])
  end.

Definition parse_number (s : jsstring) : parsed Q :=
  let '(neg, s1) :=
    match s with
    | c :: r => if (c =? 45)%N then (true, r) else (false, s)
    | [] => (false, s)
    end in
  match parse_int_part s1 with
  | None => Unexpected
  | Some (ip, s2) =>
      match parse_frac_part s2 with
      | None => Unexpected
      | Some (fp, s3) =>
          match parse_exp_part s3 with
          | None => Unexpected
          | Some (e, s4) =>
              let m := digits_value (ip ++ fp) in
              Parsed (scale10 (if neg : bool then - m else m)
                              (e - Z.of_nat (length fp))) s4
          end
      end
  end.

Definition hex_digit (c : N) : option N :=
  (if is_digit c then Some (c - 48)
   else if (97 <=? c) && (c <=? 102) then Some (c - 87)
   else if (65 <=? c) && (c <=? 70) then Some (c - 55)
   else None)%N.

Definition hex4 (a b c d : N) : option N :=
  match hex_digit a, hex_digit b, hex_digit c, hex_digit d with
  | Some x, Some y, Some z, Some w => Some (((x * 16 + y) * 16 + z) * 16 + w)%N
  | _, _, _, _ => None
  end.

(** The character a single-letter escape stands for. *)
Definition escape (c : N) : option N :=
  (if c =? 34 then Some 34          (* quotation mark *)
   else if c =? 92 then Some 92     (* reverse solidus *)
   else if c =? 47 then Some 47     (* solidus *)
   else if c =? 98 then Some 8      (* b: backspace *)
   else if c =? 102 then Some 12    (* f: form feed *)
   else if c =? 110 then Some 10    (* n: line feed *)
   else if c =? 114 then Some 13    (* r: carriage return *)
   else if c =? 116 then Some 9     (* t: tab *)
   else None)%N.

Definition parsed_cons (c : N) (p : parsed jsstring) : parsed jsstring :=
  parsed_map (cons c) p.

(** The characters of a string literal, after its opening quote. *)
Fixpoint parse_chars (s : jsstring) : parsed jsstring :=
  match s with
  | [] => Unexpected
  | c :: r =>
      if (c =? 34)%N then Parsed [] r
      else if (c =? 92)%N then
        match r with
        | [] => Unexpected
        | e :: r1 =>
            if (e =? 117)%N then
              match r1 with
              | h1 :: h2 :: h3 :: h4 :: r2 =>
                  match hex4 h1 h2 h3 h4 with
                  | Some u => parsed_cons u (parse_chars r2)
                  | None => Unexpected
                  end
              | _ => Unexpected
              end
            else
              match escape e with
              | Some u => parsed_cons u (parse_chars r1)
              | None => Unexpected
              end
        end
      else if (c <? 32)%N then Unexpected
      else parsed_cons c (parse_chars r)
  end.

(** A keyword: the input must start with it. *)
Fixpoint expect (word s : jsstring) : option jsstring :=
  match word, s with
  | [], _ => Some s
  | w :: word', c :: r => if (w =? c)%N then expect word' r else None
  | _ :: _, [] => None
  end.

Definition parse_keyword (word : jsstring) (v : value) (s : jsstring) : parsed value :=
  match expect word s with
  | Some rest => Parsed v rest
  | None => Unexpected
  end.

(** Recursive descent over the JSON grammar.  [fuel] bounds the depth of the
    recursion; [JSON_parse] supplies enough of it for any input
    (lemma [parse_value_fuel]). *)
Fixpoint parse_value (fuel : nat) (s : jsstring) : parsed value :=
  match fuel with
  | O => OutOfFuel
  | S fuel =>
      match skip_ws s with
      | [] => Unexpected
      | c :: r =>
          if (c =? 123)%N then                                   (* { *)
            match skip_ws r with
            | c' :: r' =>
                if (c' =? 125)%N then Parsed (VObj []) r'
                else parsed_map VObj (parse_members fuel (c' :: r'))
            | [] => Unexpected
            end
          else if (c =? 91)%N then                               (* [ *)
            match skip_ws r with
            | c' :: r' =>
                if (c' =? 93)%N then Parsed (VArr []) r'
                else parsed_map VArr (parse_elements fuel (c' :: r'))
            | [] => Unexpected
            end
          else if (c =? 34)%N then parsed_map VStr (parse_chars r)
          else if (c =? 116)%N then parse_keyword (lit "rue") (VBool true) r
          else if (c =? 102)%N then parse_keyword (lit "alse") (VBool false) r
          else if (c =? 110)%N then parse_keyword (lit "ull") VNull r
          else if (c =? 45)%N || is_digit c then parsed_map VNum (parse_number (c :: r))
          else Unexpected
      end
  end
with parse_elements (fuel : nat) (s : jsstring) : parsed (list value) :=
  match fuel with
  | O => OutOfFuel
  | S fuel =>
      match parse_value fuel s with
      | Parsed v rest =>
          match skip_ws rest with
          | c :: r =>
              if (c =? 44)%N then parsed_map (cons v) (parse_elements fuel r)
              else if (c =? 93)%N then Parsed [v] r
              else Unexpected
          | [] => Unexpected
          end
      | Unexpected => Unexpected
      | OutOfFuel => OutOfFuel
      end
  end
with parse_members (fuel : nat) (s : jsstring) : parsed (list (jsstring * value)) :=
  match fuel with
  | O => OutOfFuel
  | S fuel =>
      match skip_ws s with
      | c :: r =>
          if (c =? 34)%N then
            match parse_chars r with
            | Parsed key rest =>
                match skip_ws rest with
                | c2 :: r2 =>
                    if (c2 =? 58)%N then
                      match parse_value fuel r2 with
                      | Parsed v rest2 =>
                          match skip_ws rest2 with
                          | c3 :: r3 =>
                              if (c3 =? 44)%N then
                                parsed_map (cons (key, v)) (parse_members fuel r3)
                              else if (c3 =? 125)%N then Parsed [(key, v)] r3
                              else Unexpected
                          | [] => Unexpected
                          end
                      | Unexpected => Unexpected
                      | OutOfFuel => OutOfFuel
                      end
                    else Unexpected
                | [] => Unexpected
                end
            | Unexpected => Unexpected
            | OutOfFuel => OutOfFuel
            end
          else Unexpected
      | [] => Unexpected
      end
  end.

(** [JSON.parse]: one value, surrounded by optional white space; anything
    else is a [SyntaxError]. *)
Definition JSON_parse (text : jsstring) : result value :=
  match parse_value (2 * length text + 2) text with
  | Parsed v rest =>
      match skip_ws rest with
      | [] => Ok v
      | _ :: _ => Err SyntaxError
      end
  | _ => Err SyntaxError
  end.

(** ** Property reads, truthiness *)

(** The value a property read sees in an object built by [JSON.parse]. *)
Definition lookup_member (key : jsstring) (members : list (jsstring * value)) : option value :=
  fold_left (fun acc kv => if bool_decide (fst kv = key) then Some (snd kv) else acc)
            members None.

(** [base.key] for the keys this program reads ([choices], [message],
    [content], [score], [title], ...), none of which is defined on a
    prototype: reading from [null] or [undefined] throws, reading from a
    primitive or an array yields [undefined]. *)
Definition get_named (base : option value) (key : jsstring) : result (option value) :=
  match base with
  | None | Some VNull => Err TypeError
  | Some (VObj members) => Ok (lookup_member key members)
  | Some _ => Ok None
  end.

(** [base[0]]. *)
Definition get_first (base : option value) : result (option value) :=
  match base with
  | None | Some VNull => Err TypeError
  | Some (VArr items) => Ok (head items)
  | Some (VStr s) => Ok (match s with c :: _ => Some (VStr [c]) | [] => None end)
  | Some (VObj members) => Ok (lookup_member (lit "0") members)
  | Some _ => Ok None
  end.

(** [base?.key]. *)
Definition get_optional (base : option value) (key : jsstring) : option value :=
  match base with
  | Some (VObj members) => lookup_member key members
  | _ => None
  end.

(** [!v]. *)
Definition falsy (v : option value) : bool :=
  match v with
  | None | Some VNull => true
  | Some (VBool b) => negb b
  | Some (VNum q) => Qeq_bool q 0
  | Some (VStr s) => match s with [] => true | _ :: _ => false end
  | Some (VArr _) | Some (VObj _) => false
  end.

(** [v === undefined]. *)
Definition is_undefined (v : option value) : bool :=
  match v with
  | None => true
  | Some _ => false
  end.

(** [a || b]. *)
Definition or_else (a b : option value) : option value :=
  if falsy a then b else a.

(** ** Template literals *)

(** Whether [ToString] of a value built by [JSON.parse] completes.  An
    object is converted through its [toString] property: that of
    [Object.prototype], which yields a string, unless the object has an own
    property of that name, which after [JSON.parse] is never a function;
    [valueOf] is consulted next and yields no primitive either (that of
    [Object.prototype] returns the object itself, an own one is not a
    function), so the conversion ends with a TypeError.  An array joins the
    conversions of its elements, [null] counting as the empty string. *)
Fixpoint stringifiable (v : value) : bool :=
  match v with
  | VNull | VBool _ | VNum _ | VStr _ => true
  | VArr items => forallb stringifiable items
  | VObj members => is_undefined (lookup_member (lit "toString") members)
  end.

(** The same for a value read from the request body; [undefined] converts
    to a string. *)
Definition ToString_ok (v : option value) : bool :=
  match v with
  | None => true
  | Some v => stringifiable v
  end.

(** The evaluation of a template literal with the substitutions [vs]: each
    is converted to a string, and the evaluation throws a TypeError when one
    of them cannot be.  The text it builds is kept as the template and the
    values themselves (see [command]). *)
Definition template (vs : list (option value)) : result unit :=
  if forallb ToString_ok vs then Ok tt else Err TypeError.

(** ** The bracket pattern (server.js, line 194) *)

(** The longest prefix of [s] that ends with [c]: what a greedy
    [[\s\S]*] followed by [c] consumes. *)
Fixpoint upto_last (c : N) (s : jsstring) : option jsstring :=
  match s with
  | [] => None
  | x :: r =>
      match upto_last c r with
      | Some p => Some (x :: p)
      | None => if (x =? c)%N then Some [x] else None
      end
  end.

(** [response.match(/\[[\s\S]*\]/)]: the match at the leftmost position where
    one exists, or [None] ([null]). *)
Fixpoint match_array_pattern (s : jsstring) : option jsstring :=
  match s with
  | [] => None
  | c :: r =>
      match (if (c =? 91)%N then upto_last 93 r else None) with
      | Some m => Some (c :: m)
      | None => match_array_pattern r
      end
  end.

(** ** The clip name (server.js, line 218) *)

(** The complement of the class [[^a-zA-Z0-9-_]]. *)
Definition allowed (c : N) : bool :=
  (((97 <=? c) && (c <=? 122)) || ((65 <=? c) && (c <=? 90))
   || ((48 <=? c) && (c <=? 57)) || (c =? 45) || (c =? 95))%N.

(** [s.replace(/[^a-zA-Z0-9-_]/g, '_')]. *)
Definition sanitize (s : jsstring) : jsstring :=
  map (fun c => if allowed c then c else 95%N) s.

(** [(clipName || 'clip').replace(...).substring(0, 50)]; a truthy
    [clipName] that is no string has no [replace] method. *)
Definition safeName_of (clipName : option value) : result jsstring :=
  match or_else clipName (Some (VStr (lit "clip"))) with
  | Some (VStr s) => Ok (substring 0 50 (sanitize s))
  | _ => Err TypeError
  end.

Definition outputFile_of (safeName : jsstring) (now : Z) : jsstring :=
  safeName ++ lit "-" ++ Number_toString now ++ lit ".mp4".

(** ** Arithmetic on numbers, Array.prototype.sort *)

Definition number_sub (x y : number) : number :=
  match x, y with
  | NaN, _ | _, NaN => NaN
  | Finite a, Finite b => Finite (a - b)
  | PosInf, PosInf | NegInf, NegInf => NaN
  | PosInf, _ | _, NegInf => PosInf
  | NegInf, _ | _, PosInf => NegInf
  end.

(** [v > 0]; false for [NaN], which [sort] treats as zero. *)
Definition is_positive (v : number) : bool :=
  match v with
  | Finite q => Qltb 0 q
  | PosInf => true
  | NegInf | NaN => false
  end.

(** [items.sort(comparefn)]: a stable sort.  [comparefn x y > 0] places [x]
    after [y]; an exception of the comparator ends the sort.  The engine
    chooses the algorithm; for a comparator that orders the items
    consistently every stable algorithm returns this list. *)
Fixpoint insert_sorted (comparefn : value -> value -> result number)
    (x : value) (sorted : list value) : result (list value) :=
  match sorted with
  | [] => Ok [x]
  | y :: rest =>
      v ← comparefn x y;
      if is_positive v then rest' ← insert_sorted comparefn x rest; Ok (y :: rest')
      else Ok (x :: sorted)
  end.

Fixpoint Array_sort (comparefn : value -> value -> result number)
    (items : list value) : result (list value) :=
  match items with
  | [] => Ok []
  | x :: rest =>
      sorted ← Array_sort comparefn rest;
      insert_sorted comparefn x sorted
  end.

(** ** The world: working directories, external calls, responses *)

Inductive kind :=
| File      (* a regular file *)
| Dir       (* a sub-directory: [unlinkSync] refuses it *)
| Broken.   (* a dangling symbolic link: [statSync] and [existsSync] follow it *)

Record node := mkNode { node_kind : kind; mtimeMs : Q; node_size : Z }.

Inductive dir := DOWNLOADS_DIR | TEMP_DIR.

#[global] Instance dir_eq_dec : EqDecision dir.
Proof. solve_decision. Defined.

(** [path.join(dir, name)]. *)
Definition path : Type := dir * jsstring.

(** The two working directories; [None] when a directory does not exist. *)
Record fs := mkFs {
  downloads : option (gmap jsstring node);
  temp : option (gmap jsstring node) }.

Definition entries (d : dir) (disk : fs) : option (gmap jsstring node) :=
  match d with
  | DOWNLOADS_DIR => downloads disk
  | TEMP_DIR => temp disk
  end.

Definition set_entries (d : dir) (m : gmap jsstring node) (disk : fs) : fs :=
  match d with
  | DOWNLOADS_DIR => {| downloads := Some m; temp := temp disk |}
  | TEMP_DIR => {| downloads := downloads disk; temp := Some m |}
  end.

Definition lookup_path (disk : fs) (p : path) : option node :=
  match entries (fst p) disk with
  | Some m => m !! snd p
  | None => None
  end.

(** The command lines handed to [exec], kept as their template and the
    values interpolated into it. *)
Inductive command :=
| YtDlpDumpJson (url : option value)
| YtDlpExtractAudio (audioFile : path) (url : option value)
| ClipPipeline (url startTime duration : option value) (outputPath : path).

(** What becomes of a child process: [exec] itself throws, or the process
    ends and the callback receives [error] and [stdout]. *)
Inductive spawned :=
| SpawnFailed (e : exn)
| Exited (error : option exn) (stdout : jsstring) (after : fs).

Record segment := mkSegment { s_start : Q; s_end : Q; s_text : jsstring }.

Record transcription := mkTranscription {
  t_text : jsstring;
  t_segments : option (list segment) }.

Record chat_request := mkChat {
  content : jsstring;
  model : jsstring;
  temperature : Q;
  max_tokens : Z }.

Inductive call :=
| Exec (c : command)
| Transcribe (file : path)
| ChatCompletion (r : chat_request).

Inductive errmsg :=
| Text (s : jsstring)
| MessageOf (e : exn).

Inductive body :=
| ErrorBody (error : errmsg)
| VideoInfoBody (title duration thumbnail author videoId : option value)
| AnalyzeBody (transcription : jsstring) (segments : option (list segment))
              (highlights : list value)
| ClipBody (downloadUrl filename : jsstring) (size : Z).

Record response := mkResponse { status : Z; payload : body }.

Record world := mkWorld {
  disk : fs;
  calls : list call;        (* external calls issued, oldest first *)
  sent : list response }.   (* responses sent, oldest first *)

(** The collaborators the server does not implement: the environment
    variable, the child processes, the Groq API, and the coercion of strings
    and objects to numbers by the runtime. *)
Record env := mkEnv {
  GROQ_API_KEY : option jsstring;
  child_process : command -> fs -> spawned;
  transcriptions_create : path -> fs -> result transcription;
  chat_completions_create : chat_request -> result value;
  StringToNumber : jsstring -> number;
  ObjectToNumber : value -> number }.

(** ** Effects *)

Record M (A : Type) := mkM { run : world -> result A * world }.
Arguments mkM {A} run.
Arguments run {A} m w.

#[global] Instance M_ret : MRet M := fun A a => mkM (fun w => (Ok a, w)).
#[global] Instance M_bind : MBind M := fun A B f m =>
  mkM (fun w =>
    match run m w with
    | (Ok a, w') => run (f a) w'
    | (Err e, w') => (Err e, w')
    end).

Definition throw {A} (e : exn) : M A := mkM (fun w => (Err e, w)).

Definition lift {A} (r : result A) : M A := mkM (fun w => (r, w)).

(** [try { body } catch (error) { handler }]. *)
Definition try_catch {A} (body : M A) (handler : exn -> M A) : M A :=
  mkM (fun w =>
    match run body w with
    | (Err e, w') => run (handler e) w'
    | done => done
    end).

Fixpoint forEach {A} (items : list A) (f : A -> M unit) : M unit :=
  match items with
  | [] => mret tt
  | x :: rest => f x ≫= fun _ => forEach rest f
  end.

Definition record_call (c : call) : M unit :=
  mkM (fun w => (Ok tt, {| disk := disk w; calls := calls w ++ [c]; sent := sent w |})).

Definition set_disk (d : fs) : M unit :=
  mkM (fun w => (Ok tt, {| disk := d; calls := calls w; sent := sent w |})).

Definition get_disk : M fs := mkM (fun w => (Ok (disk w), w)).

(** [res.status(status).json(body)]. *)
Definition respond (status : Z) (b : body) : M unit :=
  mkM (fun w => (Ok tt, {| disk := disk w; calls := calls w;
                           sent := sent w ++ [mkResponse status b] |})).

Definition ENOENT : exn := SystemError (lit "ENOENT").
Definition EISDIR : exn := SystemError (lit "EISDIR").

Definition existsSync (p : path) : M bool :=
  d ← get_disk;
  mret (match lookup_path d p with
        | Some n => match node_kind n with Broken => false | _ => true end
        | None => false
        end).

Definition existsSync_dir (d : dir) : M bool :=
  fsys ← get_disk;
  mret (match entries d fsys with Some _ => true | None => false end).

Definition statSync (p : path) : M node :=
  d ← get_disk;
  match lookup_path d p with
  | Some n => match node_kind n with Broken => throw ENOENT | _ => mret n end
  | None => throw ENOENT
  end.

Definition unlinkSync (p : path) : M unit :=
  d ← get_disk;
  match entries (fst p) d with
  | Some m =>
      match m !! snd p with
      | Some n =>
          match node_kind n with
          | Dir => throw EISDIR
          | _ => set_disk (set_entries (fst p) (delete (snd p) m) d)
          end
      | None => throw ENOENT
      end
  | None => throw ENOENT
  end.

Definition readdirSync (d : dir) : M (list jsstring) :=
  fsys ← get_disk;
  match entries d fsys with
  | Some m => mret (map fst (map_to_list m))
  | None => throw ENOENT
  end.

(** ** The cleanup timer (server.js, lines 265-280) *)

(** One entry of a directory listing: [try { if (statSync(filePath).mtimeMs <
    oneHourAgo) unlinkSync(filePath) } catch (e) {}]. *)
Definition sweep_entry (oneHourAgo : Q) (d : dir) (file : jsstring) : M unit :=
  try_catch
    (stats ← statSync (d, file);
     if Qltb (mtimeMs stats) oneHourAgo then unlinkSync (d, file) else mret tt)
    (fun _ => mret tt).

Definition sweep_dir (oneHourAgo : Q) (d : dir) : M unit :=
  present ← existsSync_dir d;
  if negb present then mret tt
  else
    files ← readdirSync d;
    forEach files (sweep_entry oneHourAgo d).

(** One firing of the timer, at time [now] (milliseconds). *)
Definition sweep (now : Z) : M unit :=
  let oneHourAgo := inject_Z (now - 3600000) in
  forEach [DOWNLOADS_DIR; TEMP_DIR] (sweep_dir oneHourAgo).

(** ** The prompt (server.js, lines 149-181) *)

Definition render_segment (s : segment) : jsstring :=
  lit "[" ++ formatTime (s_start s) ++ lit " - " ++ formatTime (s_end s)
  ++ lit "]: " ++ s_text s.

Definition prompt_of (segmentText : jsstring) : jsstring :=
  join nl [
    lit "Du bist ein Video-Editor-Experte. Analysiere dieses Transkript und finde die 3-5 besten Clip-Momente.";
    [];
    lit "Suche nach:";
    lit "- Spannenden oder lustigen Momenten";
    lit "- Wichtigen Aussagen";
    lit "- Emotionalen H" ++ [246%N] ++ lit "hepunkten";
    lit "- " ++ [220%N] ++ lit "berraschenden Wendungen";
    lit "- Quotable Moments (Zitate die viral gehen k" ++ [246%N] ++ lit "nnten)";
    [];
    lit "Transkript:";
    segmentText;
    [];
    lit "Antworte NUR im JSON-Format:";
    lit "[";
    lit "  {";
    dq "    'start': 0,";
    dq "    'end': 30,";
    dq "    'title': 'Kurzer Clip-Titel',";
    dq "    'reason': 'Warum ist das interessant',";
    dq "    'score': 95";
    lit "  }";
    lit "]";
    [];
    lit "Regeln:";
    lit "- start/end in Sekunden (Ganzzahlen)";
    lit "- Clips sollten 15-60 Sekunden lang sein";
    lit "- score von 1-100 (wie gut ist der Clip)";
    lit "- Maximal 5 Clips";
    lit "- NUR valides JSON, kein anderer Text" ].

Definition chat_request_of (prompt : jsstring) : chat_request :=
  {| content := prompt;
     model := lit "llama-3.1-70b-versatile";
     temperature := 3 # 10;
     max_tokens := 1000 |}.

(** [completion.choices[0]?.message?.content || '[]'], which must be a
    string for [.match] to exist. *)
Definition response_of (completion : value) : result jsstring :=
  choices ← get_named (Some completion) (lit "choices");
  first ← get_first choices;
  let message := get_optional first (lit "message") in
  let content := get_optional message (lit "content") in
  match or_else content (Some (VStr (lit "[]"))) with
  | Some (VStr response) => Ok response
  | _ => Err TypeError
  end.

Section Server.

Context (E : env).

(** [ToNumber]. *)
Definition ToNumber (v : option value) : number :=
  match v with
  | None => NaN
  | Some VNull => Finite 0
  | Some (VBool b) => Finite (if b then 1 else 0)
  | Some (VNum q) => Finite q
  | Some (VStr s) => StringToNumber E s
  | Some (VArr items) => ObjectToNumber E (VArr items)
  | Some (VObj members) => ObjectToNumber E (VObj members)
  end.

(** [(a, b) => b.score - a.score]. *)
Definition by_score (a b : value) : result number :=
  sb ← get_named (Some b) (lit "score");
  sa ← get_named (Some a) (lit "score");
  Ok (number_sub (ToNumber sb) (ToNumber sa)).

(** [highlights.sort(...)]; only an array has the method. *)
Definition sort_highlights (highlights : value) : result (list value) :=
  match highlights with
  | VArr items => Array_sort by_score items
  | _ => Err TypeError
  end.

(** The command line and its run: [const cmd = `...`] with the
    substitutions [interpolated], building [c], and [await new
    Promise((resolve, reject) => exec(cmd, opts, error => error ?
    reject(error) : resolve()))].  In analyze-video the template literal
    stands inside the executor (line 94), in create-clip just before the
    promise (line 226), both times inside the [try] block: its TypeError
    reaches the same [catch] as a rejection of the promise. *)
Definition exec_await (interpolated : list (option value)) (c : command) : M unit :=
  lift (template interpolated);;
  record_call (Exec c);;
  d ← get_disk;
  match child_process E c d with
  | SpawnFailed e => throw e
  | Exited error _ after =>
      set_disk after;;
      match error with
      | Some e => throw e
      | None => mret tt
      end
  end.

(** [await groq.audio.transcriptions.create({ file:
    fs.createReadStream(audioFile), model: 'whisper-large-v3',
    response_format: 'verbose_json', timestamp_granularities: ['segment'] })]. *)
Definition transcribe (audioFile : path) : M transcription :=
  record_call (Transcribe audioFile);;
  d ← get_disk;
  lift (transcriptions_create E audioFile d).

(** [await groq.chat.completions.create({ messages: [{ role: 'user',
    content: prompt }], ... })]. *)
Definition chat (prompt : jsstring) : M value :=
  record_call (ChatCompletion (chat_request_of prompt));;
  lift (chat_completions_create E (chat_request_of prompt)).

(** ** findHighlights (server.js, lines 141-205) *)

Definition findHighlights (t : transcription) : M (list value) :=
  let segments := default [] (t_segments t) in
  if (length segments =? 0)%nat then mret []
  else
    let segmentText := join nl (map render_segment segments) in
    let prompt := prompt_of segmentText in
    try_catch
      (completion ← chat prompt;
       response ← lift (response_of completion);
       match match_array_pattern response with
       | Some jsonMatch =>
           highlights ← lift (JSON_parse jsonMatch);
           lift (sort_highlights highlights)
       | None => mret []
       end)
      (fun _ => mret []).

(** ** POST /api/video-info (server.js, lines 42-70) *)

(** The callback handed to [exec]. *)
Definition video_info_callback (error : option exn) (stdout : jsstring) : M unit :=
  match error with
  | Some _ => respond 500 (ErrorBody (Text (lit "Video nicht gefunden")))
  | None =>
      info ← lift (JSON_parse stdout);
      title ← lift (get_named (Some info) (lit "title"));
      duration ← lift (get_named (Some info) (lit "duration"));
      thumbnail ← lift (get_named (Some info) (lit "thumbnail"));
      uploader ← lift (get_named (Some info) (lit "uploader"));
      channel ← lift (if falsy uploader then get_named (Some info) (lit "channel")
                      else Ok None);
      videoId ← lift (get_named (Some info) (lit "id"));
      respond 200 (VideoInfoBody title duration thumbnail
                                 (or_else uploader channel) videoId)
  end.

(** The handler.  Its [try] block covers the template literal of the
    command line and the call of [exec], which only starts the child process
    and registers the callback; the callback runs from the event loop once
    the process has ended, when the [try] block is long over, so an
    exception of the callback is caught by nothing. *)
Definition video_info (req_body : list (jsstring * value)) : M unit :=
  let url := lookup_member (lit "url") req_body in
  if falsy url then respond 400 (ErrorBody (Text (lit "URL fehlt")))
  else
    match template [url] with
    | Err e => respond 500 (ErrorBody (MessageOf e))
    | Ok _ =>
        record_call (Exec (YtDlpDumpJson url));;
        d ← get_disk;
        match child_process E (YtDlpDumpJson url) d with
        | SpawnFailed e => respond 500 (ErrorBody (MessageOf e))
        | Exited error stdout after =>
            set_disk after;;
            video_info_callback error stdout
        end
    end.

(** ** POST /api/analyze-video (server.js, lines 76-135) *)

Definition audioFile_of (now : Z) : path :=
  (TEMP_DIR, lit "audio-" ++ Number_toString now ++ lit ".mp3").

Definition key_missing : bool :=
  match GROQ_API_KEY E with
  | Some (_ :: _) => false
  | _ => true
  end.

Definition analyze_video (now : Z) (req_body : list (jsstring * value)) : M unit :=
  let url := lookup_member (lit "url") req_body in
  if falsy url then respond 400 (ErrorBody (Text (lit "URL fehlt")))
  else if key_missing then
    respond 500 (ErrorBody (Text (lit "GROQ_API_KEY nicht konfiguriert")))
  else
    let audioFile := audioFile_of now in
    try_catch
      (exec_await [url] (YtDlpExtractAudio audioFile url);;
       t ← transcribe audioFile;
       highlights ← findHighlights t;
       unlinkSync audioFile;;
       respond 200 (AnalyzeBody (t_text t) (t_segments t) highlights))
      (fun error =>
         present ← existsSync audioFile;
         (if present : bool then unlinkSync audioFile else mret tt);;
         respond 500 (ErrorBody (MessageOf error))).

(** ** POST /api/create-clip (server.js, lines 211-252) *)

Definition create_clip (now : Z) (req_body : list (jsstring * value)) : M unit :=
  let url := lookup_member (lit "url") req_body in
  let startTime := lookup_member (lit "startTime") req_body in
  let duration := lookup_member (lit "duration") req_body in
  let clipName := lookup_member (lit "clipName") req_body in
  if falsy url || is_undefined startTime || falsy duration then
    respond 400 (ErrorBody (Text (lit "Parameter fehlen")))
  else
    safeName ← lift (safeName_of clipName);
    let outputFile := outputFile_of safeName now in
    let outputPath := (DOWNLOADS_DIR, outputFile) in
    (* console.log(`   Start: ${startTime}s, Dauer: ${duration}s`), line 223 *)
    lift (template [startTime; duration]);;
    try_catch
      (exec_await [url; startTime; duration]
                  (ClipPipeline url startTime duration outputPath);;
       present ← existsSync outputPath;
       if present : bool then
         stats ← statSync outputPath;
         respond 200 (ClipBody (lit "/downloads/" ++ outputFile) outputFile
                               (node_size stats))
       else throw (Error (lit "Datei nicht erstellt")))
      (fun _ => respond 500 (ErrorBody (Text (lit "Clip-Erstellung fehlgeschlagen")))).

End Server.

(** ** Vocabulary of the statements *)

(** The request [findHighlights] sends for a transcript. *)
Definition request_for (t : transcription) : chat_request :=
  chat_request_of
    (prompt_of (join nl (map render_segment (default [] (t_segments t))))).

(** What [findHighlights] makes of the outcome of the chat-completion call:
    the body of its [try] block, and the [catch] that turns an exception
    into the empty list. *)
Definition extracted (E : env) (reply : result value) : result (list value) :=
  completion ← reply;
  response ← response_of completion;
  match match_array_pattern response with
  | Some jsonMatch => highlights ← JSON_parse jsonMatch; sort_highlights E highlights
  | None => Ok []
  end.

Definition absorbed (r : result (list value)) : list value :=
  match r with
  | Ok l => l
  | Err _ => []
  end.

(** An object with a numeric [score], and that score. *)
Definition scored (v : value) : Prop :=
  exists members q, v = VObj members /\ lookup_member (lit "score") members = Some (VNum q).

Definition score_of (v : value) : Q :=
  match v with
  | VObj members =>
      match lookup_member (lit "score") members with
      | Some (VNum q) => q
      | _ => 0
      end
  | _ => 0
  end.

(** Descending by score. *)
Definition score_ge (a b : value) : Prop := (score_of b <= score_of a)%Q.

(** What one firing of the timer does to an entry, and to a directory: an
    entry is removed when it is a regular file whose modification time lies
    before the threshold. *)
Definition swept (t : Q) (n : node) : bool :=
  match node_kind n with
  | File => Qltb (mtimeMs n) t
  | _ => false
  end.

Definition swept_map (t : Q) (files : list jsstring) (m : gmap jsstring node) : gmap jsstring node :=
  foldl (fun acc f => match acc !! f with
                      | Some n => if swept t n then delete f acc else acc
                      | None => acc
                      end) m files.

(** The disk once [p] has been unlinked. *)
Definition remove_path (p : path) (d : fs) : fs :=
  match entries (fst p) d with
  | Some m => set_entries (fst p) (delete (snd p) m) d
  | None => d
  end.

(** [p] names a regular file, or nothing. *)
Definition regular_or_absent (d : fs) (p : path) : Prop :=
  match lookup_path d p with
  | Some n => node_kind n = File
  | None => True
  end.

(** Between [w] and [w'] the request was rejected: one response was sent,
    with status 400 and an [error] field, and no external call was issued. *)
Definition rejected (w w' : world) : Prop :=
  (exists msg, sent w' = sent w ++ [mkResponse 400 (ErrorBody msg)]) /\
  calls w' = calls w.

Definition clip_failed : body := ErrorBody (Text (lit "Clip-Erstellung fehlgeschlagen")).

(** The text [clipName || 'clip'] denotes when it is a string. *)
Definition base_name (clipName : option value) : jsstring :=
  match or_else clipName (Some (VStr (lit "clip"))) with
  | Some (VStr s) => s
  | _ => []
  end.

(** [clipName] is absent, falsy, or a string. *)
Definition name_or_nothing (clipName : option value) : Prop :=
  falsy clipName = true \/ exists s, clipName = Some (VStr s).

(** ** Sample data *)

(** A chat-completion result whose first choice carries [content]. *)
Definition completion_with (content : jsstring) : value :=
  VObj [(lit "choices",
         VArr [VObj [(lit "message", VObj [(lit "content", VStr content)])]])].

Definition sample_node : node := mkNode File 0 1024.

(** The child process writes the file it was asked for. *)
Definition write_file (p : path) (d : fs) : fs :=
  match entries (fst p) d with
  | Some m => set_entries (fst p) (<[snd p := sample_node]> m) d
  | None => d
  end.

Definition sample_transcription : transcription :=
  {| t_text := lit "Hallo Welt";
     t_segments := Some [ {| s_start := 0; s_end := 5 # 2; s_text := lit "Hallo Welt" |} ] |}.

(** An environment in which [yt-dlp] prints [stdout] and fails with
    [child_error] if any, transcription succeeds whenever the audio file is
    there, and the chat completion yields [reply]. *)
Definition sample_env (stdout : jsstring) (child_error : option exn)
    (reply : result value) : env :=
  {| GROQ_API_KEY := Some (lit "gsk");
     child_process := fun c d =>
       match c with
       | YtDlpDumpJson _ => Exited child_error stdout d
       | YtDlpExtractAudio p _ => Exited child_error [] (write_file p d)
       | ClipPipeline _ _ _ p => Exited child_error [] (write_file p d)
       end;
     transcriptions_create := fun p d =>
       match lookup_path d p with
       | Some _ => Ok sample_transcription
       | None => Err (Error (lit "Connection error."))
       end;
     chat_completions_create := fun _ => reply;
     StringToNumber := fun _ => NaN;
     ObjectToNumber := fun _ => NaN |}.

Definition empty_disk : fs := {| downloads := Some ∅; temp := Some ∅ |}.

Definition fresh_world : world := {| disk := empty_disk; calls := []; sent := [] |}.

Definition highlight (start stop : Z) (title reason : string) (score : Z) : value :=
  VObj [(lit "start", VNum (inject_Z start)); (lit "end", VNum (inject_Z stop));
        (lit "title", VStr (lit title)); (lit "reason", VStr (lit reason));
        (lit "score", VNum (inject_Z score))].

Definition highlight_A : value := highlight 0 20 "A" "x" 50.
Definition highlight_B : value := highlight 20 40 "B" "y" 90.

(** The reply of section 8 of the specification, with prose around it. *)
Definition reply_two : jsstring :=
  lit "Hier sind die Clips: "
  ++ dq "[{'start':0,'end':20,'title':'A','reason':'x','score':50},{'start':20,'end':40,'title':'B','reason':'y','score':90}]"
  ++ lit " Viel Erfolg!".

(** A reply with six items. *)
Definition reply_six : jsstring :=
  dq "[{'score':10},{'score':20},{'score':30},{'score':40},{'score':50},{'score':60}]".

(** What [yt-dlp --dump-json] prints for a playlist of two videos: one JSON
    document per line. *)
Definition stdout_playlist : jsstring :=
  dq "{'id':'a','title':'one'}" ++ nl ++ dq "{'id':'b','title':'two'}" ++ nl.

Definition request_url (url : string) : list (jsstring * value) :=
  [(lit "url", VStr (lit url))].

Definition env_six : env := sample_env [] None (Ok (completion_with reply_six)).

Definition scored_only (score : Z) : value := VObj [(lit "score", VNum (inject_Z score))].

Definition six_sorted : list value :=
  [scored_only 60; scored_only 50; scored_only 40; scored_only 30; scored_only 20;
   scored_only 10].

(** [{url: "x", startTime: 0, duration: 0}] and
    [{url: "x", startTime: 0, duration: 30}]. *)
Definition clip_request (startTime duration : Z) : list (jsstring * value) :=
  [(lit "url", VStr (lit "x"));
   (lit "startTime", VNum (inject_Z startTime));
   (lit "duration", VNum (inject_Z duration))].

(** A reply without any bracket. *)
Definition reply_prose : jsstring := lit "Leider keine passenden Clips gefunden.".

Definition env_prose : env := sample_env [] None (Ok (completion_with reply_prose)).

Definition old_file : node := mkNode File 0 2048.
Definition new_file : node := mkNode File 9000000 2048.
Definition old_dir : node := mkNode Dir 0 4096.
Definition old_link : node := mkNode Broken 0 0.

(** Both directories one firing of the timer at [now = 10000000] meets: an
    old and a recent clip, an old sub-directory (deleting it fails), an old
    dangling link (reading its status fails), and an old audio file. *)
Definition littered_world : world :=
  {| disk :=
       {| downloads :=
            Some (<[lit "old.mp4" := old_file]>
                    (<[lit "new.mp4" := new_file]>
                       (<[lit "cache" := old_dir]>
                          (<[lit "latest" := old_link]> ∅))));
          temp := Some (<[lit "audio-1.mp3" := old_file]> ∅) |};
     calls := [];
     sent := [] |}.

(** [{url: "x", startTime: 0, duration: 30, clipName: "Mein Clip #1!"}]. *)
Definition named_request : list (jsstring * value) :=
  clip_request 0 30 ++ [(lit "clipName", VStr (lit "Mein Clip #1!"))].

(** [{url: "x", startTime: 0, duration: 30, clipName: 5}]. *)
Definition numeric_name_request : list (jsstring * value) :=
  clip_request 0 30 ++ [(lit "clipName", VNum 5)].

(** ** Start-up (server.js, lines 21-25) *)

(** [fs.mkdirSync(dir, { recursive: true })]: creates the directory, empty,
    and does nothing when it is already there. *)
Definition mkdirSync (d : dir) : M unit :=
  fsys ← get_disk;
  match entries d fsys with
  | Some _ => mret tt
  | None => set_disk (set_entries d ∅ fsys)
  end.

(** [[DOWNLOADS_DIR, TEMP_DIR].forEach(dir => { if (!fs.existsSync(dir))
    fs.mkdirSync(dir, { recursive: true }) })]. *)
Definition startup : M unit :=
  forEach [DOWNLOADS_DIR; TEMP_DIR]
    (fun d => present ← existsSync_dir d;
              if negb present then mkdirSync d else mret tt).

(** ** Vocabulary of the further statements *)

(** The external calls a validated analyze-video request issues, given what
    the collaborators answer: none when [url] cannot be written into the
    command line; otherwise the extraction, then the transcription if the
    extraction succeeded, then the chat completion if the transcription
    succeeded with at least one segment. *)
Definition analyze_calls (E : env) (now : Z) (url : option value) (d : fs) : list call :=
  let p := audioFile_of now in
  if ToString_ok url then
    Exec (YtDlpExtractAudio p url) ::
    match child_process E (YtDlpExtractAudio p url) d with
    | Exited None _ after =>
        Transcribe p ::
        match transcriptions_create E p after with
        | Ok t =>
            match default [] (t_segments t) with
            | [] => []
            | _ :: _ => [ChatCompletion (request_for t)]
            end
        | Err _ => []
        end
    | _ => []
    end
  else [].

(** What [findHighlights] returns for a transcript. *)
Definition highlights_for (E : env) (t : transcription) : list value :=
  match default [] (t_segments t) with
  | [] => []
  | _ :: _ => absorbed (extracted E (chat_completions_create E (request_for t)))
  end.

(** A character of [a-zA-Z0-9-_] or a full stop. *)
Definition filename_char (c : N) : Prop := allowed c = true \/ c = 46%N.

(** The outcome of [yt-dlp --dump-json] is one the handler can answer: the
    process failed (to start, or with an error), or it ended normally and
    printed a JSON value other than [null]. *)
Definition usable_output (o : spawned) : Prop :=
  match o with
  | Exited None stdout _ => exists info, JSON_parse stdout = Ok info /\ info <> VNull
  | _ => True
  end.

(** Sample data for the further statements. *)
Definition stdout_video : jsstring :=
  dq "{'id':'dQw4','title':'Song','duration':212,'thumbnail':'t.jpg','uploader':'','channel':'Kanal'}".

Definition env_chat_down : env :=
  sample_env [] None (Err (Error (lit "503 Service Unavailable"))).

(** The [catch] block of the analyze-video handler, for the audio file [p]. *)
Definition analyze_catch (p : path) (error : exn) : M unit :=
  present ← existsSync p;
  (if present : bool then unlinkSync p else mret tt);;
  respond 500 (ErrorBody (MessageOf error)).

(** The world once [findHighlights] has run for [t]. *)
Definition after_highlights (t : transcription) (w : world) : world :=
  match default [] (t_segments t) with
  | [] => w
  | _ :: _ => {| disk := disk w;
                 calls := calls w ++ [ChatCompletion (request_for t)];
                 sent := sent w |}
  end.

(** The pipeline ended without error and left something at the output path
    that [existsSync] sees. *)
Definition clip_written (o : spawned) (p : path) (n : node) : Prop :=
  exists stdout after,
    o = Exited None stdout after /\ lookup_path after p = Some n /\
    node_kind n <> Broken.

(** The disk a child process leaves behind. *)
Definition disk_after (o : spawned) (before : fs) : fs :=
  match o with
  | SpawnFailed _ => before
  | Exited _ _ after => after
  end.

(** What the run of a handler did to the stream of responses: it added one
    response when the handler ended normally, and none when it ended with an
    exception. *)
Definition one_response_or_exception (w : world) (out : result unit * world) : Prop :=
  match fst out with
  | Ok _ => exists r, sent (snd out) = sent w ++ [r]
  | Err _ => sent (snd out) = sent w
  end.

(** A directory, and the disk, once every entry of the listing has been
    visited by the cleanup timer with threshold [t]. *)
Definition sweep_all (t : Q) (m : gmap jsstring node) : gmap jsstring node :=
  swept_map t (map fst (map_to_list m)) m.

Definition swept_disk (t : Q) (d : fs) : fs :=
  {| downloads := sweep_all t <$> downloads d; temp := sweep_all t <$> temp d |}.

(** The items of [l] whose score is [q], in the order of [l]. *)
Definition with_score (q : Q) (l : list value) : list value :=
  List.filter (fun v => Qeq_bool (score_of v) q) l.

(** A reply in which the first and the last item have the same score. *)
Definition highlight_C : value := highlight 40 60 "C" "z" 50.

Definition reply_tie : jsstring :=
  dq "[{'start':0,'end':20,'title':'A','reason':'x','score':50},{'start':20,'end':40,'title':'B','reason':'y','score':90},{'start':40,'end':60,'title':'C','reason':'z','score':50}]".

(** How a remainder [- k], for [0 <= k < 60], reads after [padStart(2, '0')]:
    "00" for zero, and otherwise the minus sign and the digits of [k], which
    are two characters or more and get no padding. *)
Definition negative_seconds (k : Z) : jsstring :=
  if k =? 0 then [digit 0; digit 0]
  else if k <? 10 then [45%N; digit k]
  else [45%N; digit (k / 10); digit (k mod 10)].

(** The number a sequence of decimal digits denotes. *)
Definition decimal_value (s : jsstring) : Z :=
  fold_left (fun acc c => 10 * acc + (Z.of_N c - 48)) s 0.

(* ================================================================== *)
(** * Theorems *)

(** ** Plumbing: binds, try/catch, responses *)

Lemma bind_Ok {A B} (a : A) (f : A -> result B) : (Ok a ≫= f) = f a.
Proof. reflexivity. Qed.

Lemma run_bind {A B} (m : M A) (f : A -> M B) w :
  run (m ≫= f) w =
  match run m w with
  | (Ok a, w') => run (f a) w'
  | (Err e, w') => (Err e, w')
  end.
Proof. reflexivity. Qed.

Lemma run_try_catch {A} (body : M A) (handler : exn -> M A) (w : world) :
  run (try_catch body handler) w =
  match run body w with
  | (Err e, w') => run (handler e) w'
  | done => done
  end.
Proof. reflexivity. Qed.

Lemma respond_run (status : Z) (b : body) (w : world) :
  run (respond status b) w =
  (Ok tt, {| disk := disk w; calls := calls w; sent := sent w ++ [mkResponse status b] |}).
Proof. reflexivity. Qed.

Lemma app_singleton_inj {A} (l : list A) (x y : A) : l ++ [x] = l ++ [y] -> x = y.
Proof. intros H. apply app_inv_head in H. congruence. Qed.

Lemma app_singleton_neq {A} (l : list A) (x : A) : l <> l ++ [x].
Proof.
  intros H. apply (f_equal (@length A)) in H. rewrite length_app in H. simpl in H. lia.
Qed.

(** ** formatTime *)

Lemma pad_two_digits_table :
  Forall (fun k => padStart 2 (lit "0") (Number_toString (Z.of_nat k))
                   = two_digits (Z.of_nat k)) (seq 0 60).
Proof. apply (bool_decide_unpack _). vm_compute. reflexivity. Qed.

Lemma pad_two_digits (n : Z) :
  0 <= n < 60 -> padStart 2 (lit "0") (Number_toString n) = two_digits n.
Proof.
  intros Hn.
  pose proof pad_two_digits_table as T.
  rewrite Forall_forall in T.
  specialize (T (Z.to_nat n)).
  rewrite Z2Nat.id in T by lia.
  apply T. apply list_elem_of_In, in_seq. lia.
Qed.

Lemma Qtrunc_nonneg (x : Q) : (0 <= x)%Q -> Qtrunc x = Qfloor x.
Proof.
  intros H. unfold Qtrunc.
  destruct (Qle_bool 0 x) eqn:E; [reflexivity|].
  apply Qle_bool_iff in H. congruence.
Qed.

Lemma js_rem_60_nonneg (s : Q) :
  (0 <= s)%Q -> js_rem s 60 = Qmod s 60.
Proof.
  intros H. unfold js_rem, Qmod.
  rewrite Qtrunc_nonneg; [reflexivity|].
  apply Qle_shift_div_l; [reflexivity|]. lra.
Qed.

Lemma Qmod_60_range (s : Q) : 0 <= Qfloor (Qmod s 60) < 60.
Proof.
  unfold Qmod.
  pose proof (Qfloor_le (s / inject_Z 60)) as Hlo.
  pose proof (Qlt_floor (s / inject_Z 60)) as Hhi.
  set (k := Qfloor (s / inject_Z 60)) in *.
  assert (Hs : (s == 60 * (s / inject_Z 60))%Q) by (change (inject_Z 60) with 60%Q; field).
  rewrite inject_Z_plus in Hhi. change (inject_Z 1) with 1%Q in Hhi.
  change (inject_Z 60) with 60%Q in *.
  split.
  - change 0 with (Qfloor 0). apply Qfloor_resp_le. lra.
  - assert (H : (s - 60 * inject_Z k < 60)%Q) by lra.
    destruct (Z_lt_le_dec (Qfloor (s - 60 * inject_Z k)) 60) as [L|G]; [exact L|].
    exfalso.
    pose proof (Qfloor_le (s - 60 * inject_Z k)) as F.
    assert (G' : (60 <= inject_Z (Qfloor (s - 60 * inject_Z k)))%Q).
    { change 60%Q with (inject_Z 60). rewrite <- Zle_Qle. exact G. }
    lra.
Qed.

(** C4. For every non-negative number of seconds [s], [formatTime s] is the
    decimal rendering of [floor (s / 60)], a colon, and [floor (s mod 60)]
    written with two digits; and [formatTime 0 = "0:00"],
    [formatTime 65 = "1:05"], [formatTime 3599 = "59:59"]. *)
Theorem formatTime_meets_contract :
  (forall s : Q, (0 <= s)%Q -> formatTime s = formatTime_spec s) /\
  formatTime 0 = lit "0:00" /\
  formatTime 65 = lit "1:05" /\
  formatTime 3599 = lit "59:59".
Proof.
  split; [|repeat split; vm_compute; reflexivity].
  intros s Hs. unfold formatTime, formatTime_spec, Math_floor.
  rewrite js_rem_60_nonneg by exact Hs.
  rewrite pad_two_digits by apply Qmod_60_range.
  reflexivity.
Qed.

Lemma formatTime_meets_contract_witness :
  (0 <= 125 # 2)%Q /\ formatTime (125 # 2) = lit "1:02".
Proof.
  split; [discriminate|].
  rewrite (proj1 formatTime_meets_contract (125 # 2)) by discriminate.
  vm_compute. reflexivity.
Defined.

(** ** JSON.parse never runs out of fuel *)

Lemma skip_ws_length (s : jsstring) : (length (skip_ws s) <= length s)%nat.
Proof.
  induction s as [|c s IH]; simpl; [lia|].
  destruct (is_ws c); simpl; lia.
Qed.

Lemma span_digits_length (s ds rest : jsstring) :
  span_digits s = (ds, rest) -> (length ds + length rest = length s)%nat.
Proof.
  revert ds rest. induction s as [|c s IH]; intros ds rest; simpl.
  - intros [= <- <-]. reflexivity.
  - destruct (is_digit c).
    + destruct (span_digits s) as [ds' rest'] eqn:Hs. intros [= <- <-].
      specialize (IH _ _ eq_refl). simpl. lia.
    + intros [= <- <-]. simpl. lia.
Qed.

Lemma parse_number_length (s : jsstring) (q : Q) (rest : jsstring) :
  parse_number s = Parsed q rest -> (length rest < length s)%nat.
Proof.
  unfold parse_number.
  set (sign := match s with
               | c :: r => if (c =? 45)%N then (true, r) else (false, s)
               | [] => (false, s)
               end).
  assert (Hsign : (length (snd sign) <= length s)%nat).
  { subst sign. destruct s as [|c r]; simpl; [lia|]. destruct (c =? 45)%N; simpl; lia. }
  destruct sign as [neg s1]. cbn [snd] in Hsign.
  destruct (parse_int_part s1) as [[ip s2]|] eqn:Hi; [|discriminate].
  assert (H2 : (length s2 < length s1)%nat).
  { unfold parse_int_part in Hi. destruct s1 as [|c r]; [discriminate|].
    destruct (c =? 48)%N.
    - injection Hi as <- <-. simpl. lia.
    - destruct (is_digit c) eqn:Hd; [|discriminate].
      injection Hi as Hi. simpl in Hi. rewrite Hd in Hi.
      destruct (span_digits r) as [ds' rest'] eqn:Hs. injection Hi as <- <-.
      apply span_digits_length in Hs. simpl. lia. }
  destruct (parse_frac_part s2) as [[fp s3]|] eqn:Hf; [|discriminate].
  assert (H3 : (length s3 <= length s2)%nat).
  { unfold parse_frac_part in Hf. destruct s2 as [|c r]; [injection Hf as <- <-; simpl; lia|].
    destruct (c =? 46)%N.
    - destruct (span_digits r) as [ds' rest'] eqn:Hs.
      apply span_digits_length in Hs.
      destruct ds'; [discriminate|]. injection Hf as <- <-. simpl in *. lia.
    - injection Hf as <- <-. lia. }
  destruct (parse_exp_part s3) as [[e s4]|] eqn:He; [|discriminate].
  assert (H4 : (length s4 <= length s3)%nat).
  { unfold parse_exp_part in He. destruct s3 as [|c r]; [injection He as <- <-; simpl; lia|].
    destruct ((c =? 101) || (c =? 69))%N.
    - set (sg := match r with
                 | sg :: r' => if (sg =? 45)%N then (true, r')
                               else if (sg =? 43)%N then (false, r') else (false, r)
                 | [] => (false, r)
                 end) in He.
      assert (Hsg : (length (snd sg) <= length r)%nat).
      { subst sg. destruct r as [|x r']; simpl; [lia|].
        destruct (x =? 45)%N; [simpl; lia|]. destruct (x =? 43)%N; simpl; lia. }
      destruct sg as [ng r1]. cbn [snd] in Hsg.
      destruct (span_digits r1) as [ds' rest'] eqn:Hs.
      apply span_digits_length in Hs.
      destruct ds'; [discriminate|]. injection He as <- <-. simpl in *. lia.
    - injection He as <- <-. lia. }
  intros [= <- <-]. lia.
Qed.

Lemma parse_chars_length (s key rest : jsstring) :
  parse_chars s = Parsed key rest -> (length rest < length s)%nat.
Proof.
  revert key rest.
  induction s as [s IH] using (induction_ltof1 _ (@length N)). unfold ltof in IH.
  intros key rest. destruct s as [|c r]; [discriminate|]. cbn [parse_chars].
  destruct (c =? 34)%N; [intros [= <- <-]; simpl; lia|].
  destruct (c =? 92)%N.
  - destruct r as [|e r1]; [discriminate|].
    destruct (e =? 117)%N.
    + destruct r1 as [|h1 [|h2 [|h3 [|h4 r2]]]]; try discriminate.
      destruct (hex4 h1 h2 h3 h4); [|discriminate].
      unfold parsed_cons, parsed_map.
      destruct (parse_chars r2) as [k' rest'| |] eqn:Hr; try discriminate.
      intros [= <- <-]. apply IH in Hr; simpl in *; lia.
    + destruct (escape e); [|discriminate].
      unfold parsed_cons, parsed_map.
      destruct (parse_chars r1) as [k' rest'| |] eqn:Hr; try discriminate.
      intros [= <- <-]. apply IH in Hr; simpl in *; lia.
  - destruct (c <? 32)%N; [discriminate|].
    unfold parsed_cons, parsed_map.
    destruct (parse_chars r) as [k' rest'| |] eqn:Hr; try discriminate.
    intros [= <- <-]. apply IH in Hr; simpl in *; lia.
Qed.

Lemma parse_chars_fuel (s : jsstring) : parse_chars s <> OutOfFuel.
Proof.
  induction s as [s IH] using (induction_ltof1 _ (@length N)). unfold ltof in IH.
  destruct s as [|c r]; [discriminate|]. cbn [parse_chars].
  destruct (c =? 34)%N; [discriminate|].
  destruct (c =? 92)%N.
  - destruct r as [|e r1]; [discriminate|].
    destruct (e =? 117)%N.
    + destruct r1 as [|h1 [|h2 [|h3 [|h4 r2]]]]; try discriminate.
      destruct (hex4 h1 h2 h3 h4); [|discriminate].
      unfold parsed_cons, parsed_map.
      destruct (parse_chars r2) eqn:Hr; try discriminate.
      exfalso. revert Hr. apply IH. simpl. lia.
    + destruct (escape e); [|discriminate].
      unfold parsed_cons, parsed_map.
      destruct (parse_chars r1) eqn:Hr; try discriminate.
      exfalso. revert Hr. apply IH. simpl. lia.
  - destruct (c <? 32)%N; [discriminate|].
    unfold parsed_cons, parsed_map.
    destruct (parse_chars r) eqn:Hr; try discriminate.
    exfalso. revert Hr. apply IH. simpl. lia.
Qed.

Lemma expect_length (word s rest : jsstring) :
  expect word s = Some rest -> (length rest <= length s)%nat.
Proof.
  revert s. induction word as [|x word IH]; intros s; simpl.
  - intros [= <-]. lia.
  - destruct s as [|c r]; [discriminate|].
    destruct (x =? c)%N; [|discriminate].
    intros H. apply IH in H. simpl. lia.
Qed.

Lemma parse_keyword_length word v (s : jsstring) (v' : value) (rest : jsstring) :
  parse_keyword word v s = Parsed v' rest -> (length rest <= length s)%nat.
Proof.
  unfold parse_keyword. destruct (expect word s) eqn:He; [|discriminate].
  intros [= <- <-]. eapply expect_length; eassumption.
Qed.

Lemma parsed_map_Parsed {A B} (f : A -> B) (p : parsed A) (b : B) (rest : jsstring) :
  parsed_map f p = Parsed b rest -> exists a, p = Parsed a rest /\ b = f a.
Proof. destruct p; simpl; intros H; try discriminate. injection H as <- <-. eauto. Qed.

Lemma parsed_map_OutOfFuel {A B} (f : A -> B) (p : parsed A) :
  parsed_map f p = OutOfFuel -> p = OutOfFuel.
Proof. destruct p; simpl; intros H; try discriminate. reflexivity. Qed.

Lemma parse_consumes (n : nat) :
  (forall s v rest, parse_value n s = Parsed v rest -> (length rest < length s)%nat) /\
  (forall s vs rest, parse_elements n s = Parsed vs rest -> (length rest < length s)%nat) /\
  (forall s ms rest, parse_members n s = Parsed ms rest -> (length rest < length s)%nat).
Proof.
  induction n as [|n (IHv & IHe & IHm)]; [repeat split; intros; discriminate|].
  repeat split.
  - intros s v rest. cbn [parse_value].
    pose proof (skip_ws_length s) as Hw.
    destruct (skip_ws s) as [|c r]; [discriminate|]. cbn [length] in Hw.
    destruct (c =? 123)%N.
    { pose proof (skip_ws_length r) as Hw2.
      destruct (skip_ws r) as [|c' r']; [discriminate|]. cbn [length] in Hw2.
      destruct (c' =? 125)%N; [intros [= <- <-]; lia|].
      intros H. apply parsed_map_Parsed in H. destruct H as (ms & H & _).
      apply IHm in H. cbn [length] in H. lia. }
    destruct (c =? 91)%N.
    { pose proof (skip_ws_length r) as Hw2.
      destruct (skip_ws r) as [|c' r']; [discriminate|]. cbn [length] in Hw2.
      destruct (c' =? 93)%N; [intros [= <- <-]; lia|].
      intros H. apply parsed_map_Parsed in H. destruct H as (vs & H & _).
      apply IHe in H. cbn [length] in H. lia. }
    destruct (c =? 34)%N.
    { intros H. apply parsed_map_Parsed in H. destruct H as (k & H & _).
      apply parse_chars_length in H. lia. }
    destruct (c =? 116)%N; [intros H; apply parse_keyword_length in H; lia|].
    destruct (c =? 102)%N; [intros H; apply parse_keyword_length in H; lia|].
    destruct (c =? 110)%N; [intros H; apply parse_keyword_length in H; lia|].
    destruct ((c =? 45)%N || is_digit c); [|discriminate].
    intros H. apply parsed_map_Parsed in H. destruct H as (q & H & _).
    apply parse_number_length in H. cbn [length] in H. lia.
  - intros s vs rest. cbn [parse_elements].
    destruct (parse_value n s) as [v rest0| |] eqn:Hv; try discriminate.
    apply IHv in Hv.
    pose proof (skip_ws_length rest0) as Hw.
    destruct (skip_ws rest0) as [|c r]; [discriminate|]. cbn [length] in Hw.
    destruct (c =? 44)%N.
    { intros H. apply parsed_map_Parsed in H. destruct H as (vs' & H & _).
      apply IHe in H. lia. }
    destruct (c =? 93)%N; [|discriminate].
    intros [= <- <-]. lia.
  - intros s ms rest. cbn [parse_members].
    pose proof (skip_ws_length s) as Hw.
    destruct (skip_ws s) as [|c r]; [discriminate|]. cbn [length] in Hw.
    destruct (c =? 34)%N; [|discriminate].
    destruct (parse_chars r) as [key rest0| |] eqn:Hk; try discriminate.
    apply parse_chars_length in Hk.
    pose proof (skip_ws_length rest0) as Hw2.
    destruct (skip_ws rest0) as [|c2 r2]; [discriminate|]. cbn [length] in Hw2.
    destruct (c2 =? 58)%N; [|discriminate].
    destruct (parse_value n r2) as [v rest2| |] eqn:Hv; try discriminate.
    apply IHv in Hv.
    pose proof (skip_ws_length rest2) as Hw3.
    destruct (skip_ws rest2) as [|c3 r3]; [discriminate|]. cbn [length] in Hw3.
    destruct (c3 =? 44)%N.
    { intros H. apply parsed_map_Parsed in H. destruct H as (ms' & H & _).
      apply IHm in H. lia. }
    destruct (c3 =? 125)%N; [|discriminate].
    intros [= <- <-]. lia.
Qed.

Lemma parse_fuel (n : nat) :
  (forall s, (2 * length s + 1 <= n)%nat -> parse_value n s <> OutOfFuel) /\
  (forall s, (2 * length s + 2 <= n)%nat -> parse_elements n s <> OutOfFuel) /\
  (forall s, (2 * length s + 2 <= n)%nat -> parse_members n s <> OutOfFuel).
Proof.
  induction n as [|n (IHv & IHe & IHm)]; [repeat split; intros; lia|].
  repeat split.
  - intros s Hn. cbn [parse_value].
    pose proof (skip_ws_length s) as Hw.
    destruct (skip_ws s) as [|c r]; [discriminate|]. cbn [length] in Hw.
    destruct (c =? 123)%N.
    { pose proof (skip_ws_length r) as Hw2.
      destruct (skip_ws r) as [|c' r']; [discriminate|]. cbn [length] in Hw2.
      destruct (c' =? 125)%N; [discriminate|].
      intros H. apply parsed_map_OutOfFuel in H. revert H. apply IHm.
      cbn [length]. lia. }
    destruct (c =? 91)%N.
    { pose proof (skip_ws_length r) as Hw2.
      destruct (skip_ws r) as [|c' r']; [discriminate|]. cbn [length] in Hw2.
      destruct (c' =? 93)%N; [discriminate|].
      intros H. apply parsed_map_OutOfFuel in H. revert H. apply IHe.
      cbn [length]. lia. }
    destruct (c =? 34)%N.
    { intros H. apply parsed_map_OutOfFuel in H. revert H. apply parse_chars_fuel. }
    unfold parse_keyword.
    destruct (c =? 116)%N; [destruct (expect _ r); discriminate|].
    destruct (c =? 102)%N; [destruct (expect _ r); discriminate|].
    destruct (c =? 110)%N; [destruct (expect _ r); discriminate|].
    destruct ((c =? 45)%N || is_digit c); [|discriminate].
    intros H. apply parsed_map_OutOfFuel in H. revert H.
    unfold parse_number.
    destruct (match c :: r with
              | c0 :: r0 => if (c0 =? 45)%N then (true, r0) else (false, c :: r)
              | [] => (false, c :: r)
              end) as [neg s1].
    destruct (parse_int_part s1) as [[ip s2]|]; [|discriminate].
    destruct (parse_frac_part s2) as [[fp s3]|]; [|discriminate].
    destruct (parse_exp_part s3) as [[e s4]|]; discriminate.
  - intros s Hn. cbn [parse_elements].
    destruct (parse_value n s) as [v rest0| |] eqn:Hv; try discriminate.
    + apply (proj1 (parse_consumes n)) in Hv.
      pose proof (skip_ws_length rest0) as Hw.
      destruct (skip_ws rest0) as [|c r]; [discriminate|]. cbn [length] in Hw.
      destruct (c =? 44)%N.
      { intros H. apply parsed_map_OutOfFuel in H. revert H. apply IHe. lia. }
      destruct (c =? 93)%N; discriminate.
    + exfalso. revert Hv. apply IHv. lia.
  - intros s Hn. cbn [parse_members].
    pose proof (skip_ws_length s) as Hw.
    destruct (skip_ws s) as [|c r]; [discriminate|]. cbn [length] in Hw.
    destruct (c =? 34)%N; [|discriminate].
    destruct (parse_chars r) as [key rest0| |] eqn:Hk; try discriminate.
    + apply parse_chars_length in Hk.
      pose proof (skip_ws_length rest0) as Hw2.
      destruct (skip_ws rest0) as [|c2 r2]; [discriminate|]. cbn [length] in Hw2.
      destruct (c2 =? 58)%N; [|discriminate].
      destruct (parse_value n r2) as [v rest2| |] eqn:Hv; try discriminate.
      * apply (proj1 (parse_consumes n)) in Hv.
        pose proof (skip_ws_length rest2) as Hw3.
        destruct (skip_ws rest2) as [|c3 r3]; [discriminate|]. cbn [length] in Hw3.
        destruct (c3 =? 44)%N.
        { intros H. apply parsed_map_OutOfFuel in H. revert H. apply IHm. lia. }
        destruct (c3 =? 125)%N; discriminate.
      * exfalso. revert Hv. apply IHv. lia.
    + exfalso. revert Hk. apply parse_chars_fuel.
Qed.

(** The fuel [JSON_parse] supplies is enough: a [SyntaxError] always stands
    for text outside the grammar. *)
Lemma parse_value_fuel (text : jsstring) :
  parse_value (2 * length text + 2) text <> OutOfFuel.
Proof. apply (proj1 (parse_fuel _)). lia. Qed.

Lemma JSON_parse_spec (text : jsstring) :
  (exists v rest, parse_value (2 * length text + 2) text = Parsed v rest /\
                  skip_ws rest = [] /\ JSON_parse text = Ok v) \/
  ((parse_value (2 * length text + 2) text = Unexpected \/
    exists v rest c r, parse_value (2 * length text + 2) text = Parsed v rest /\
                       skip_ws rest = c :: r) /\
   JSON_parse text = Err SyntaxError).
Proof.
  unfold JSON_parse. pose proof (parse_value_fuel text) as Hf.
  destruct (parse_value (2 * length text + 2) text) as [v rest| |]; [| |contradiction].
  - destruct (skip_ws rest) as [|c r] eqn:Hw.
    + left. eauto.
    + right. split; [right; eauto 6|reflexivity].
  - right. split; [left; reflexivity|reflexivity].
Qed.

(** ** The bracket pattern *)

Lemma upto_last_None (c : N) (s : jsstring) : upto_last c s = None <-> c ∉ s.
Proof.
  induction s as [|x s IH]; cbn [upto_last].
  - split; [intros _; apply not_elem_of_nil|reflexivity].
  - rewrite not_elem_of_cons.
    destruct (upto_last c s) as [p|].
    + split; [discriminate|]. intros [_ H]. apply IH in H. discriminate.
    + destruct (N.eqb_spec x c) as [->|Hne].
      * split; [discriminate|]. intros [H _]. contradiction.
      * split; [|reflexivity]. intros _. split; [congruence|]. apply IH. reflexivity.
Qed.

Lemma upto_last_Some (c : N) (s p : jsstring) :
  upto_last c s = Some p ->
  exists front post, p = front ++ [c] /\ s = p ++ post /\ c ∉ post.
Proof.
  revert p. induction s as [|x s IH]; intros p; cbn [upto_last]; [discriminate|].
  destruct (upto_last c s) as [p'|] eqn:Hs.
  - intros [= <-]. destruct (IH p' eq_refl) as (front & post & -> & -> & Hpost).
    exists (x :: front), post. repeat split. exact Hpost.
  - destruct (N.eqb_spec x c) as [->|Hne]; [|discriminate].
    intros [= <-]. exists [], s. repeat split. apply upto_last_None. exact Hs.
Qed.

(** A match is the text from the leftmost opening bracket to the last
    closing bracket. *)
Lemma match_array_pattern_Some (s m : jsstring) :
  match_array_pattern s = Some m ->
  exists pre inner post,
    s = pre ++ m ++ post /\
    m = 91%N :: (inner ++ [93%N]) /\
    (91%N ∉ pre) /\ (93%N ∉ post).
Proof.
  revert m. induction s as [|c s IH]; intros m; cbn [match_array_pattern]; [discriminate|].
  destruct (if (c =? 91)%N then upto_last 93 s else None) as [p|] eqn:Hp.
  - intros [= <-]. destruct (N.eqb_spec c 91) as [->|]; [|discriminate].
    apply upto_last_Some in Hp. destruct Hp as (front & post & -> & -> & Hpost).
    exists [], front, post. repeat split; [apply not_elem_of_nil|exact Hpost].
  - intros H. destruct (IH m H) as (pre & inner & post & -> & -> & Hpre & Hpost).
    exists (c :: pre), inner, post. repeat split; [|exact Hpost].
    apply not_elem_of_cons. split; [|exact Hpre].
    intros <-. rewrite N.eqb_refl in Hp. apply upto_last_None in Hp.
    apply Hp. set_solver.
Qed.

(** There is no match exactly when no closing bracket follows an opening
    one. *)
Lemma match_array_pattern_None (s : jsstring) :
  match_array_pattern s = None <->
  ~ exists pre inner post, s = pre ++ 91%N :: (inner ++ 93%N :: post).
Proof.
  induction s as [|c s IH]; cbn [match_array_pattern].
  - split; [|reflexivity]. intros _ (pre & inner & post & H).
    destruct pre; discriminate.
  - destruct (if (c =? 91)%N then upto_last 93 s else None) as [p|] eqn:Hp.
    + split; [discriminate|]. intros Hno. exfalso. apply Hno.
      destruct (N.eqb_spec c 91) as [->|]; [|discriminate].
      apply upto_last_Some in Hp. destruct Hp as (front & post & -> & -> & _).
      exists [], front, post. rewrite <- app_assoc. reflexivity.
    + rewrite IH. clear IH. split.
      * intros Hno (pre & inner & post & H). destruct pre as [|x pre].
        -- injection H as Hc Hs. subst c s. rewrite N.eqb_refl in Hp.
           apply upto_last_None in Hp. apply Hp. set_solver.
        -- injection H as Hc Hs. subst x s. apply Hno. eauto.
      * intros Hno (pre & inner & post & ->). apply Hno.
        exists (c :: pre), inner, post. reflexivity.
Qed.

(** ** The sort *)

Lemma Qltb_lt (x y : Q) : Qltb x y = true <-> (x < y)%Q.
Proof.
  unfold Qltb. rewrite negb_true_iff. split.
  - intros H. apply Qnot_le_lt. intros Hle. apply Qle_bool_iff in Hle. congruence.
  - intros H. destruct (Qle_bool y x) eqn:E; [|reflexivity].
    apply Qle_bool_iff in E. exfalso. exact (Qlt_not_le _ _ H E).
Qed.

Lemma is_positive_sub (a b : Q) :
  is_positive (number_sub (Finite b) (Finite a)) = true <-> (a < b)%Q.
Proof. simpl. rewrite Qltb_lt. split; intros H; lra. Qed.

Lemma by_score_scored (E : env) (a b : value) :
  scored a -> scored b ->
  by_score E a b = Ok (Finite (score_of b - score_of a)).
Proof.
  intros (ma & qa & -> & Ha) (mb & qb & -> & Hb).
  unfold by_score, score_of. cbn [get_named].
  rewrite !bind_Ok, Ha, Hb. reflexivity.
Qed.

Lemma score_ge_trans (a b c : value) : score_ge a b -> score_ge b c -> score_ge a c.
Proof. unfold score_ge. intros H1 H2. eapply Qle_trans; eassumption. Qed.

Lemma insert_sorted_scored (E : env) (x : value) :
  scored x ->
  forall l, Forall scored l -> StronglySorted score_ge l ->
    exists l', insert_sorted (by_score E) x l = Ok l' /\
               Permutation (x :: l) l' /\ StronglySorted score_ge l'.
Proof.
  intros Hx l. induction l as [|y l IH]; intros Hl Hs.
  - exists [x]. repeat split; try reflexivity. repeat constructor.
  - inversion Hl as [|? ? Hy Hl']; subst.
    inversion Hs as [|? ? Hs' Hall]; subst.
    cbn [insert_sorted]. rewrite (by_score_scored E x y Hx Hy), bind_Ok.
    destruct (is_positive (Finite (score_of y - score_of x))) eqn:Hpos.
    + destruct (IH Hl' Hs') as (l' & -> & Hp & Hsorted). rewrite bind_Ok.
      exists (y :: l'). split; [reflexivity|]. split.
      * rewrite perm_swap. apply perm_skip. exact Hp.
      * constructor; [exact Hsorted|].
        apply (proj1 (is_positive_sub _ _)) in Hpos.
        rewrite List.Forall_forall in *. intros z Hz.
        apply (Permutation_in _ (Permutation_sym Hp)) in Hz.
        destruct Hz as [<-|Hz].
        -- unfold score_ge. apply Qlt_le_weak. exact Hpos.
        -- apply Hall. exact Hz.
    + exists (x :: y :: l). split; [reflexivity|]. split; [reflexivity|].
      assert (Hxy : score_ge x y).
      { unfold score_ge. apply Qnot_lt_le. intros Hlt.
        apply is_positive_sub in Hlt. simpl in Hlt, Hpos. congruence. }
      constructor; [exact Hs|].
      constructor; [exact Hxy|].
      rewrite List.Forall_forall in *. intros z Hz.
      eapply score_ge_trans; [exact Hxy|]. apply Hall. exact Hz.
Qed.

Lemma Array_sort_scored (E : env) (l : list value) :
  Forall scored l ->
  exists l', Array_sort (by_score E) l = Ok l' /\
             Permutation l l' /\ StronglySorted score_ge l'.
Proof.
  induction l as [|x l IH]; intros Hl.
  - exists []. repeat split; try reflexivity. constructor.
  - inversion Hl as [|? ? Hx Hl']; subst.
    destruct (IH Hl') as (s & Hs & Hp & Hsorted).
    cbn [Array_sort]. rewrite Hs, bind_Ok.
    assert (HPs : Forall scored s).
    { rewrite List.Forall_forall in *. intros z Hz. apply Hl'.
      eapply Permutation_in; [symmetry; exact Hp|exact Hz]. }
    destruct (insert_sorted_scored E x Hx s HPs Hsorted) as (l' & Hl'' & Hp' & Hs'').
    exists l'. split; [exact Hl''|]. split; [|exact Hs''].
    etransitivity; [apply perm_skip; exact Hp|exact Hp'].
Qed.

(** Whatever the comparator answers, a sort that ends returns the items it
    was given, in some order. *)
Lemma insert_sorted_perm comparefn (x : value) (l l' : list value) :
  insert_sorted comparefn x l = Ok l' -> Permutation (x :: l) l'.
Proof.
  revert l'. induction l as [|y l IH]; intros l'; cbn [insert_sorted].
  - intros [= <-]. reflexivity.
  - destruct (comparefn x y) as [v|e]; [rewrite bind_Ok|discriminate].
    destruct (is_positive v).
    + destruct (insert_sorted comparefn x l) as [r|e]; [rewrite bind_Ok|discriminate].
      intros [= <-]. rewrite perm_swap. apply perm_skip. apply IH. reflexivity.
    + intros [= <-]. reflexivity.
Qed.

Lemma Array_sort_perm comparefn (l l' : list value) :
  Array_sort comparefn l = Ok l' -> Permutation l l'.
Proof.
  revert l'. induction l as [|x l IH]; intros l'; cbn [Array_sort].
  - intros [= <-]. reflexivity.
  - destruct (Array_sort comparefn l) as [s|e]; [rewrite bind_Ok|discriminate].
    intros H. apply insert_sorted_perm in H.
    etransitivity; [apply perm_skip; apply IH; reflexivity|exact H].
Qed.

Lemma highlight_scored (a b : Z) (t r : string) (sc : Z) : scored (highlight a b t r sc).
Proof. eexists _, _. split; reflexivity. Qed.

(** ** findHighlights *)

Lemma findHighlights_run (E : env) (t : transcription) (w : world) :
  run (findHighlights E t) w =
  match default [] (t_segments t) with
  | [] => (Ok [], w)
  | _ :: _ =>
      (Ok (absorbed (extracted E (chat_completions_create E (request_for t)))),
       {| disk := disk w;
          calls := calls w ++ [ChatCompletion (request_for t)];
          sent := sent w |})
  end.
Proof.
  unfold findHighlights, request_for, extracted.
  destruct (default [] (t_segments t)) as [|s0 segs] eqn:Hs; [reflexivity|].
  cbn [length Nat.eqb].
  unfold try_catch, chat, lift. simpl.
  destruct (chat_completions_create E _) as [completion|e]; simpl; [|reflexivity].
  destruct (response_of completion) as [response|e]; simpl; [|reflexivity].
  destruct (match_array_pattern response) as [jsonMatch|]; simpl; [|reflexivity].
  destruct (JSON_parse jsonMatch) as [highlights|e]; simpl; [|reflexivity].
  destruct (sort_highlights E highlights); reflexivity.
Qed.

(** C3. For a transcript whose segment sequence is empty (or absent),
    [findHighlights] returns the empty list at once and leaves the world as
    it found it: in particular the list of external calls is unchanged, so
    no chat-completion request is made. *)
Theorem findHighlights_empty_transcript (E : env) (text : jsstring) (w : world) :
  run (findHighlights E (mkTranscription text (Some []))) w = (Ok [], w) /\
  run (findHighlights E (mkTranscription text None)) w = (Ok [], w) /\
  calls (snd (run (findHighlights E (mkTranscription text (Some []))) w)) = calls w.
Proof. repeat split. Qed.

(** With at least one segment, exactly one chat-completion request is made. *)
Lemma findHighlights_calls_once (E : env) (t : transcription) (w : world) :
  default [] (t_segments t) <> [] ->
  calls (snd (run (findHighlights E t) w)) = calls w ++ [ChatCompletion (request_for t)].
Proof.
  intros Hne. rewrite findHighlights_run.
  destruct (default [] (t_segments t)); [contradiction|reflexivity].
Qed.

(** [findHighlights] never throws, touches neither the disk nor the
    response, and returns what [extracted] yields, or the empty list. *)
Lemma findHighlights_total (E : env) (t : transcription) (w : world) :
  exists hl w',
    run (findHighlights E t) w = (Ok hl, w') /\
    disk w' = disk w /\ sent w' = sent w /\
    (hl = [] \/ hl = absorbed (extracted E (chat_completions_create E (request_for t)))).
Proof.
  rewrite findHighlights_run.
  destruct (default [] (t_segments t)); eexists _, _; split; try reflexivity; auto.
Qed.

(** C1. Whatever the transcript, if the chat-completion call fails, or its
    reply text contains no match of the bracket pattern, or the matched text
    is rejected by [JSON.parse], then [findHighlights] returns the empty
    list: no exception reaches the analyze-video handler. *)
Theorem findHighlights_absorbs_failures (E : env) (t : transcription) (w : world) :
  (exists e, chat_completions_create E (request_for t) = Err e) \/
  (exists completion response,
      chat_completions_create E (request_for t) = Ok completion /\
      response_of completion = Ok response /\
      (match_array_pattern response = None \/
       exists jsonMatch e,
         match_array_pattern response = Some jsonMatch /\
         JSON_parse jsonMatch = Err e)) ->
  fst (run (findHighlights E t) w) = Ok [].
Proof.
  intros H. rewrite findHighlights_run.
  destruct (default [] (t_segments t)); [reflexivity|].
  cbn [fst]. f_equal. unfold extracted.
  destruct H as [[e ->]|(completion & response & -> & Hr & Hm)]; [reflexivity|].
  rewrite bind_Ok, Hr, bind_Ok.
  destruct Hm as [->|(jsonMatch & e & -> & ->)]; reflexivity.
Qed.

Lemma findHighlights_absorbs_failures_witness :
  match_array_pattern reply_prose = None /\
  fst (run (findHighlights env_prose sample_transcription) fresh_world) = Ok [].
Proof.
  split; [vm_compute; reflexivity|].
  apply findHighlights_absorbs_failures. right.
  exists (completion_with reply_prose), reply_prose.
  split; [reflexivity|]. split; [vm_compute; reflexivity|].
  left. vm_compute. reflexivity.
Defined.

(** C2. When the reply text yields, through the bracket pattern and
    [JSON.parse], an array of objects with a numeric [score],
    [findHighlights] returns the items of that array in descending order of
    score; for the reply of section 8 of the specification (scores 50 and
    90) the item with score 90 comes first. *)
Theorem findHighlights_sorts_by_score :
  (forall (E : env) (t : transcription) (w : world)
          (completion : value) (response jsonMatch : jsstring) (items : list value),
      default [] (t_segments t) <> [] ->
      chat_completions_create E (request_for t) = Ok completion ->
      response_of completion = Ok response ->
      match_array_pattern response = Some jsonMatch ->
      JSON_parse jsonMatch = Ok (VArr items) ->
      Forall scored items ->
      exists sorted,
        fst (run (findHighlights E t) w) = Ok sorted /\
        Permutation items sorted /\
        StronglySorted score_ge sorted) /\
  fst (run (findHighlights (sample_env [] None (Ok (completion_with reply_two)))
                           sample_transcription) fresh_world)
  = Ok [highlight_B; highlight_A].
Proof.
  split; [|vm_compute; reflexivity].
  intros E t w completion response jsonMatch items Hne Hc Hr Hm Hp Hs.
  destruct (Array_sort_scored E items Hs) as (sorted & Hsort & Hperm & Hsorted).
  exists sorted. split; [|split; assumption].
  rewrite findHighlights_run.
  destruct (default [] (t_segments t)); [contradiction|].
  cbn [fst]. unfold extracted.
  rewrite Hc, bind_Ok, Hr, bind_Ok, Hm, Hp, bind_Ok. cbn [sort_highlights].
  rewrite Hsort. reflexivity.
Qed.

Lemma findHighlights_sorts_by_score_witness :
  exists sorted,
    fst (run (findHighlights (sample_env [] None (Ok (completion_with reply_two)))
                             sample_transcription) fresh_world) = Ok sorted /\
    Permutation [highlight_A; highlight_B] sorted /\
    StronglySorted score_ge sorted.
Proof.
  apply (proj1 findHighlights_sorts_by_score
           (sample_env [] None (Ok (completion_with reply_two)))
           sample_transcription fresh_world
           (completion_with reply_two) reply_two
           (dq "[{'start':0,'end':20,'title':'A','reason':'x','score':50},{'start':20,'end':40,'title':'B','reason':'y','score':90}]")
           [highlight_A; highlight_B]).
  - discriminate.
  - reflexivity.
  - vm_compute. reflexivity.
  - vm_compute. reflexivity.
  - vm_compute. reflexivity.
  - repeat constructor; apply highlight_scored.
Defined.

(** What [findHighlights] returns is empty, or every item of the array
    parsed from the reply. *)
Lemma extracted_whole_array (E : env) (reply : result value) :
  absorbed (extracted E reply) = [] \/
  exists completion response jsonMatch items,
    reply = Ok completion /\
    response_of completion = Ok response /\
    match_array_pattern response = Some jsonMatch /\
    JSON_parse jsonMatch = Ok (VArr items) /\
    Permutation items (absorbed (extracted E reply)).
Proof.
  unfold extracted.
  destruct reply as [completion|e]; [rewrite bind_Ok|left; reflexivity].
  destruct (response_of completion) as [response|e] eqn:Hr;
    [rewrite bind_Ok|left; reflexivity].
  destruct (match_array_pattern response) as [jsonMatch|] eqn:Hm; [|left; reflexivity].
  destruct (JSON_parse jsonMatch) as [v|e] eqn:Hp; [rewrite bind_Ok|left; reflexivity].
  destruct v as [| | | |items|]; try (left; reflexivity).
  cbn [sort_highlights].
  destruct (Array_sort (by_score E) items) as [l|e] eqn:Hs; [|left; reflexivity].
  right. exists completion, response, jsonMatch, items.
  repeat split; try assumption. cbn [absorbed]. apply Array_sort_perm in Hs. exact Hs.
Qed.

(** ** File-system primitives, child processes *)

Lemma set_entries_same d m fsys : entries d fsys = Some m -> set_entries d m fsys = fsys.
Proof. destruct d, fsys; simpl; intros ->; reflexivity. Qed.

Lemma entries_set_entries d m fsys : entries d (set_entries d m fsys) = Some m.
Proof. destruct d; reflexivity. Qed.

Lemma entries_set_entries_ne d d' m fsys :
  d <> d' -> entries d' (set_entries d m fsys) = entries d' fsys.
Proof. destruct d, d'; simpl; congruence. Qed.

Lemma set_entries_twice d m m' fsys :
  set_entries d m' (set_entries d m fsys) = set_entries d m' fsys.
Proof. destruct d; reflexivity. Qed.

Lemma lookup_remove_path (p : path) (d : fs) : lookup_path (remove_path p d) p = None.
Proof.
  unfold remove_path, lookup_path.
  destruct (entries (fst p) d) as [m|] eqn:Em.
  - rewrite entries_set_entries. apply lookup_delete_eq.
  - rewrite Em. reflexivity.
Qed.

Lemma unlinkSync_run (p : path) (w : world) :
  run (unlinkSync p) w =
  match lookup_path (disk w) p with
  | Some n =>
      match node_kind n with
      | Dir => (Err EISDIR, w)
      | _ => (Ok tt, {| disk := remove_path p (disk w); calls := calls w; sent := sent w |})
      end
  | None => (Err ENOENT, w)
  end.
Proof.
  unfold unlinkSync, lookup_path, remove_path. simpl.
  destruct (entries (fst p) (disk w)) as [m|]; [|reflexivity].
  destruct (m !! snd p) as [n|]; [|reflexivity].
  destruct (node_kind n); reflexivity.
Qed.

Lemma existsSync_run (p : path) (w : world) :
  run (existsSync p) w =
  (Ok (match lookup_path (disk w) p with
       | Some n => match node_kind n with Broken => false | _ => true end
       | None => false
       end), w).
Proof. reflexivity. Qed.

Lemma statSync_run (p : path) (w : world) :
  run (statSync p) w =
  match lookup_path (disk w) p with
  | Some n => match node_kind n with Broken => (Err ENOENT, w) | _ => (Ok n, w) end
  | None => (Err ENOENT, w)
  end.
Proof.
  unfold statSync. simpl. destruct (lookup_path (disk w) p) as [n|]; [|reflexivity].
  destruct (node_kind n); reflexivity.
Qed.

Lemma template_one (v : option value) :
  template [v] = if ToString_ok v then Ok tt else Err TypeError.
Proof. unfold template. cbn [forallb]. rewrite andb_true_r. reflexivity. Qed.

Lemma exec_await_run (E : env) (vs : list (option value)) (c : command) (w : world) :
  run (exec_await E vs c) w =
  match template vs with
  | Err e => (Err e, w)
  | Ok _ =>
      match child_process E c (disk w) with
      | SpawnFailed e =>
          (Err e, {| disk := disk w; calls := calls w ++ [Exec c]; sent := sent w |})
      | Exited (Some e) _ after =>
          (Err e, {| disk := after; calls := calls w ++ [Exec c]; sent := sent w |})
      | Exited None _ after =>
          (Ok tt, {| disk := after; calls := calls w ++ [Exec c]; sent := sent w |})
      end
  end.
Proof.
  unfold exec_await. rewrite run_bind.
  destruct (template vs) as [[]|e]; [|reflexivity]. simpl.
  destruct (child_process E c (disk w)) as [e|[e|] out after]; reflexivity.
Qed.

Lemma transcribe_run (E : env) (p : path) (w : world) :
  run (transcribe E p) w =
  (transcriptions_create E p (disk w),
   {| disk := disk w; calls := calls w ++ [Transcribe p]; sent := sent w |}).
Proof. reflexivity. Qed.

(** ** POST /api/video-info *)

Lemma video_info_child_error (E : env) (req_body : list (jsstring * value)) (w : world)
    (e : exn) (stdout : jsstring) (after : fs) :
  let url := lookup_member (lit "url") req_body in
  falsy url = false -> ToString_ok url = true ->
  child_process E (YtDlpDumpJson url) (disk w) = Exited (Some e) stdout after ->
  run (video_info E req_body) w =
  (Ok tt, {| disk := after; calls := calls w ++ [Exec (YtDlpDumpJson url)];
             sent := sent w ++ [mkResponse 500 (ErrorBody (Text (lit "Video nicht gefunden")))] |}).
Proof.
  intros url Hurl Hs Hc. unfold video_info. fold url. rewrite Hurl, template_one, Hs.
  simpl. rewrite Hc. reflexivity.
Qed.

(** Output that [JSON.parse] rejects: the exception leaves the callback,
    nothing catches it and no response is sent. *)
Lemma video_info_unparsable (E : env) (req_body : list (jsstring * value)) (w : world)
    (e : exn) (stdout : jsstring) (after : fs) :
  let url := lookup_member (lit "url") req_body in
  falsy url = false -> ToString_ok url = true ->
  child_process E (YtDlpDumpJson url) (disk w) = Exited None stdout after ->
  JSON_parse stdout = Err e ->
  run (video_info E req_body) w =
  (Err e, {| disk := after; calls := calls w ++ [Exec (YtDlpDumpJson url)];
             sent := sent w |}).
Proof.
  intros url Hurl Hs Hc Hp. unfold video_info. fold url. rewrite Hurl, template_one, Hs.
  simpl. rewrite Hc. simpl. rewrite Hp. reflexivity.
Qed.

(** C5, at the failing input.  [yt-dlp --dump-json] exits with status 0 and
    prints two JSON documents (a playlist of two videos): [JSON.parse]
    throws inside the callback of [exec], outside the [try] block of the
    handler, so the exception is uncaught and the request gets no response.
    When [yt-dlp] fails instead, the response is 500 "Video nicht
    gefunden". *)
Theorem video_info_playlist_output_uncaught :
  run (video_info (sample_env stdout_playlist None (Err (Error [])))
                  (request_url "https://www.youtube.com/playlist?list=PL1"))
      fresh_world
  = (Err SyntaxError,
     {| disk := empty_disk;
        calls := [Exec (YtDlpDumpJson
                          (Some (VStr (lit "https://www.youtube.com/playlist?list=PL1"))))];
        sent := [] |})
  /\
  sent (snd (run (video_info (sample_env [] (Some (Error (lit "Command failed")))
                                         (Err (Error [])))
                             (request_url "https://www.youtube.com/watch?v=none"))
                 fresh_world))
  = [mkResponse 500 (ErrorBody (Text (lit "Video nicht gefunden")))].
Proof. split; vm_compute; reflexivity. Qed.

(** ** POST /api/analyze-video *)

(** The [catch] block of the handler. *)
Lemma analyze_catch_run (p : path) (error : exn) (w : world) :
  regular_or_absent (disk w) p ->
  run (present ← existsSync p;
       (if present : bool then unlinkSync p else mret tt);;
       respond 500 (ErrorBody (MessageOf error))) w =
  (Ok tt, {| disk := remove_path p (disk w); calls := calls w;
             sent := sent w ++ [mkResponse 500 (ErrorBody (MessageOf error))] |}).
Proof.
  unfold regular_or_absent. intros Hreg.
  rewrite run_bind, existsSync_run.
  destruct (lookup_path (disk w) p) as [n|] eqn:Hn.
  - rewrite Hreg. rewrite run_bind, unlinkSync_run, Hn, Hreg. reflexivity.
  - rewrite run_bind. simpl.
    assert (Hd : remove_path p (disk w) = disk w).
    { unfold remove_path. unfold lookup_path in Hn.
      destruct (entries (fst p) (disk w)) as [m|] eqn:Em; [|reflexivity].
      rewrite delete_id by exact Hn. apply set_entries_same. exact Em. }
    rewrite Hd. reflexivity.
Qed.

(** C7. For an analyze-video request that passes validation (a truthy [url],
    a configured key), provided the audio path never names anything but a
    regular file (before the request, and after [yt-dlp] has run), the
    handler ends by sending one response, 200 or 500, and the audio file
    of the request does not exist afterwards. *)
Theorem analyze_video_leaves_no_audio
    (E : env) (now : Z) (req_body : list (jsstring * value)) (w : world) :
  let url := lookup_member (lit "url") req_body in
  let audioFile := audioFile_of now in
  falsy url = false ->
  key_missing E = false ->
  regular_or_absent (disk w) audioFile ->
  (forall error stdout after,
      child_process E (YtDlpExtractAudio audioFile url) (disk w)
      = Exited error stdout after ->
      regular_or_absent after audioFile) ->
  exists status b w',
    run (analyze_video E now req_body) w = (Ok tt, w') /\
    sent w' = sent w ++ [mkResponse status b] /\
    (status = 200 \/ status = 500) /\
    lookup_path (disk w') audioFile = None.
Proof.
  intros url audioFile Hurl Hkey Hreg Hchild.
  unfold analyze_video. fold url. fold audioFile. rewrite Hurl, Hkey.
  rewrite run_try_catch, run_bind, exec_await_run.
  destruct (template [url]) as [[]|e0].
  2:{ (* the command line cannot be built *)
    rewrite analyze_catch_run by exact Hreg.
    eexists 500, _, _. split; [reflexivity|]. cbn [sent disk].
    split; [reflexivity|]. split; [right; reflexivity|]. apply lookup_remove_path. }
  destruct (child_process E (YtDlpExtractAudio audioFile url) (disk w))
    as [e|[e|] out after] eqn:Hc.
  - (* exec throws *)
    rewrite analyze_catch_run by exact Hreg.
    eexists 500, _, _. split; [reflexivity|]. cbn [sent disk].
    split; [reflexivity|]. split; [right; reflexivity|]. apply lookup_remove_path.
  - (* the child process fails *)
    rewrite analyze_catch_run by (eapply Hchild; reflexivity).
    eexists 500, _, _. split; [reflexivity|]. cbn [sent disk].
    split; [reflexivity|]. split; [right; reflexivity|]. apply lookup_remove_path.
  - (* the child process succeeds *)
    specialize (Hchild None out after eq_refl).
    rewrite run_bind, transcribe_run. cbn [disk calls sent].
    destruct (transcriptions_create E audioFile after) as [t|e].
    + rewrite run_bind.
      destruct (findHighlights_total E t
                  {| disk := after;
                     calls := (calls w ++ [Exec (YtDlpExtractAudio audioFile url)])
                              ++ [Transcribe audioFile];
                     sent := sent w |})
        as (hl & w3 & -> & Hd3 & Hs3 & _).
      cbn [disk sent] in Hd3, Hs3.
      rewrite run_bind, unlinkSync_run, Hd3.
      unfold regular_or_absent in Hchild.
      destruct (lookup_path after audioFile) as [n|] eqn:Hn.
      * rewrite Hchild. rewrite respond_run. cbn [disk calls sent].
        eexists 200, _, _. split; [reflexivity|]. cbn [sent disk].
        rewrite Hs3. split; [reflexivity|]. split; [left; reflexivity|].
        apply lookup_remove_path.
      * rewrite analyze_catch_run
          by (unfold regular_or_absent; rewrite Hd3, Hn; exact I).
        eexists 500, _, _. split; [reflexivity|]. cbn [sent disk].
        rewrite Hs3. split; [reflexivity|]. split; [right; reflexivity|].
        apply lookup_remove_path.
    + rewrite analyze_catch_run by exact Hchild.
      eexists 500, _, _. split; [reflexivity|]. cbn [sent disk].
      split; [reflexivity|]. split; [right; reflexivity|]. apply lookup_remove_path.
Qed.

Lemma analyze_video_leaves_no_audio_witness :
  exists status b w',
    run (analyze_video env_six 1700000000000 (request_url "https://youtu.be/x")) fresh_world
    = (Ok tt, w') /\
    sent w' = sent fresh_world ++ [mkResponse status b] /\
    (status = 200 \/ status = 500) /\
    lookup_path (disk w') (audioFile_of 1700000000000) = None.
Proof.
  apply (analyze_video_leaves_no_audio env_six 1700000000000
           (request_url "https://youtu.be/x") fresh_world).
  - reflexivity.
  - reflexivity.
  - exact I.
  - intros error stdout after H. injection H as _ _ <-. reflexivity.
Defined.

(** The [catch] block of analyze-video sends an error response or nothing. *)
Lemma analyze_catch_sent (p : path) (error : exn) (w : world) :
  let w' := snd (run (present ← existsSync p;
                      (if present : bool then unlinkSync p else mret tt);;
                      respond 500 (ErrorBody (MessageOf error))) w) in
  sent w' = sent w \/
  sent w' = sent w ++ [mkResponse 500 (ErrorBody (MessageOf error))].
Proof.
  cbv zeta. rewrite run_bind, existsSync_run.
  destruct (lookup_path (disk w) p) as [n|] eqn:Hn.
  - destruct (node_kind n) eqn:Hk.
    + rewrite run_bind, unlinkSync_run, Hn, Hk. right. reflexivity.
    + rewrite run_bind, unlinkSync_run, Hn, Hk. left. reflexivity.
    + right. reflexivity.
  - right. reflexivity.
Qed.

(** A success response of analyze-video carries the transcript that the
    transcription call of this request returned, and what [findHighlights]
    returned for it. *)
Lemma analyze_video_success
    (E : env) (now : Z) (req_body : list (jsstring * value)) (w : world)
    (status : Z) (tx : jsstring) (segs : option (list segment)) (hl : list value) :
  let url := lookup_member (lit "url") req_body in
  let p := audioFile_of now in
  sent (snd (run (analyze_video E now req_body) w))
  = sent w ++ [mkResponse status (AnalyzeBody tx segs hl)] ->
  exists stdout after t w1,
    child_process E (YtDlpExtractAudio p url) (disk w) = Exited None stdout after /\
    transcriptions_create E p after = Ok t /\
    status = 200 /\ tx = t_text t /\ segs = t_segments t /\
    fst (run (findHighlights E t) w1) = Ok hl.
Proof.
  intros url p. unfold analyze_video. fold url. fold p.
  destruct (falsy url).
  { rewrite respond_run. cbn [snd sent]. intros H.
    apply app_singleton_inj in H. discriminate. }
  destruct (key_missing E).
  { rewrite respond_run. cbn [snd sent]. intros H.
    apply app_singleton_inj in H. discriminate. }
  rewrite run_try_catch, run_bind, exec_await_run.
  assert (Hcatch : forall error w2,
             sent w2 = sent w ->
             sent (snd (run (present ← existsSync p;
                             (if present : bool then unlinkSync p else mret tt);;
                             respond 500 (ErrorBody (MessageOf error))) w2))
             = sent w ++ [mkResponse status (AnalyzeBody tx segs hl)] -> False).
  { intros error w2 Hw2 H.
    destruct (analyze_catch_sent p error w2) as [Hs|Hs]; cbv zeta in Hs;
      rewrite Hs, Hw2 in H.
    - exact (app_singleton_neq _ _ H).
    - apply app_singleton_inj in H. discriminate. }
  destruct (template [url]) as [[]|e0].
  2:{ intros H. exfalso. eapply Hcatch; [|exact H]. reflexivity. }
  destruct (child_process E (YtDlpExtractAudio p url) (disk w))
    as [e|[e|] out after] eqn:Hc.
  - intros H. exfalso. eapply Hcatch; [|exact H]. reflexivity.
  - intros H. exfalso. eapply Hcatch; [|exact H]. reflexivity.
  - rewrite run_bind, transcribe_run. cbn [disk calls sent].
    destruct (transcriptions_create E p after) as [t|e] eqn:Ht.
    + rewrite run_bind.
      match goal with |- context [run (findHighlights E t) ?w0] => set (w1 := w0) end.
      destruct (findHighlights_total E t w1) as (hl' & w3 & Hrun & Hd3 & Hs3 & _).
      rewrite Hrun. cbn [disk sent] in Hd3, Hs3.
      rewrite run_bind, unlinkSync_run.
      assert (Hdone : sent w3 ++ [mkResponse 200 (AnalyzeBody (t_text t) (t_segments t) hl')]
                      = sent w ++ [mkResponse status (AnalyzeBody tx segs hl)] ->
                      exists stdout after0 t0 w0,
                        Exited None out after = Exited None stdout after0 /\
                        transcriptions_create E p after0 = Ok t0 /\
                        status = 200 /\ tx = t_text t0 /\ segs = t_segments t0 /\
                        fst (run (findHighlights E t0) w0) = Ok hl).
      { rewrite Hs3. intros H. apply app_singleton_inj in H.
        injection H as <- <- <- <-.
        exists out, after, t, w1. rewrite Hrun. repeat split. exact Ht. }
      destruct (lookup_path (disk w3) p) as [n|] eqn:Hn.
      * destruct (node_kind n) eqn:Hk.
        -- rewrite respond_run. cbn [snd sent]. exact Hdone.
        -- intros H. exfalso. eapply Hcatch; [|exact H]. exact Hs3.
        -- rewrite respond_run. cbn [snd sent]. exact Hdone.
      * intros H. exfalso. eapply Hcatch; [|exact H]. exact Hs3.
    + intros H. exfalso. eapply Hcatch; [|exact H]. reflexivity.
Qed.

(** C8, as stated, fails: when the reply's array holds six items the success
    response carries six highlights. *)
Lemma analyze_video_six_highlights :
  sent (snd (run (analyze_video env_six 0 (request_url "https://youtu.be/x")) fresh_world))
  = [mkResponse 200 (AnalyzeBody (lit "Hallo Welt") (t_segments sample_transcription)
                                 six_sorted)]
  /\ ~ (length six_sorted <= 5)%nat.
Proof. split; [vm_compute; reflexivity|]. simpl. lia. Qed.

(** C8, amended. A success response of analyze-video comes from a request
    whose extraction ended without error and whose transcription call
    returned a transcript [t]; it has status 200 and carries the text and
    the segments of [t],
    and its highlights are either none, or all the items of the array parsed
    from the reply to the chat completion requested for [t], reordered: as
    many entries as that array holds.  The limit of five is asked of the
    model in the prompt and is not enforced on the reply. *)
Theorem analyze_video_highlights_whole_array
    (E : env) (now : Z) (req_body : list (jsstring * value)) (w : world)
    (status : Z) (tx : jsstring) (segs : option (list segment)) (hl : list value) :
  let url := lookup_member (lit "url") req_body in
  let audioFile := audioFile_of now in
  sent (snd (run (analyze_video E now req_body) w))
  = sent w ++ [mkResponse status (AnalyzeBody tx segs hl)] ->
  exists stdout after t,
    child_process E (YtDlpExtractAudio audioFile url) (disk w)
    = Exited None stdout after /\
    transcriptions_create E audioFile after = Ok t /\
    status = 200 /\ tx = t_text t /\ segs = t_segments t /\
    (hl = [] \/
     exists completion response jsonMatch items,
       chat_completions_create E (request_for t) = Ok completion /\
       response_of completion = Ok response /\
       match_array_pattern response = Some jsonMatch /\
       JSON_parse jsonMatch = Ok (VArr items) /\
       Permutation items hl /\
       length hl = length items).
Proof.
  intros url audioFile H. apply analyze_video_success in H.
  destruct H as (stdout & after & t & w1 & Hc & Ht & H200 & Htx & Hsegs & H).
  exists stdout, after, t.
  split; [exact Hc|]. split; [exact Ht|]. split; [exact H200|].
  split; [exact Htx|]. split; [exact Hsegs|].
  rewrite findHighlights_run in H.
  destruct (default [] (t_segments t)); cbn [fst] in H.
  - left. congruence.
  - injection H as <-.
    destruct (extracted_whole_array E (chat_completions_create E (request_for t)))
      as [->|(completion & response & jsonMatch & items & Hcc & Hr & Hm & Hp & Hperm)].
    + left. reflexivity.
    + right. exists completion, response, jsonMatch, items.
      repeat split; try assumption. symmetry. apply Permutation_length. exact Hperm.
Qed.

Lemma analyze_video_highlights_whole_array_witness :
  exists stdout after t,
    child_process env_six (YtDlpExtractAudio (audioFile_of 0)
                                             (Some (VStr (lit "https://youtu.be/x"))))
                  (disk fresh_world)
    = Exited None stdout after /\
    transcriptions_create env_six (audioFile_of 0) after = Ok t /\
    200 = 200 /\ lit "Hallo Welt" = t_text t /\
    t_segments sample_transcription = t_segments t /\
    (six_sorted = [] \/
     exists completion response jsonMatch items,
       chat_completions_create env_six (request_for t) = Ok completion /\
       response_of completion = Ok response /\
       match_array_pattern response = Some jsonMatch /\
       JSON_parse jsonMatch = Ok (VArr items) /\
       Permutation items six_sorted /\
       length six_sorted = length items).
Proof.
  apply (analyze_video_highlights_whole_array env_six 0
           (request_url "https://youtu.be/x") fresh_world 200
           (lit "Hallo Welt") (t_segments sample_transcription) six_sorted).
  vm_compute. reflexivity.
Defined.

(** ** Decimal rendering *)

Lemma lit_inj (s s' : string) : lit s = lit s' -> s = s'.
Proof.
  unfold lit. intros H.
  rewrite <- (string_of_list_ascii_of_string s), <- (string_of_list_ascii_of_string s').
  f_equal. revert H.
  generalize (list_ascii_of_string s) (list_ascii_of_string s').
  induction l as [|a l IH]; intros [|b l'] H; try discriminate; [reflexivity|].
  injection H as Hab Hl. f_equal; [|apply IH; exact Hl].
  rewrite <- (ascii_N_embedding a), <- (ascii_N_embedding b), Hab. reflexivity.
Qed.

Lemma Number_toString_inj (a b : Z) : Number_toString a = Number_toString b -> a = b.
Proof.
  unfold Number_toString. intros H. apply lit_inj in H.
  apply DecimalZ.to_int_inj.
  assert (Hnn : forall z, Z.to_int z <> Decimal.Pos Decimal.Nil /\
                          Z.to_int z <> Decimal.Neg Decimal.Nil).
  { intros [|p|p]; split; try discriminate; simpl; intros [= Hp];
      exact (DecimalPos.Unsigned.to_uint_nonnil p Hp). }
  destruct (Hnn a) as [Ha1 Ha2], (Hnn b) as [Hb1 Hb2].
  pose proof (NilZero.isi _ Ha1 Ha2) as Ia.
  pose proof (NilZero.isi _ Hb1 Hb2) as Ib.
  rewrite H in Ia. congruence.
Qed.

Lemma string_of_uint_digits (d : Decimal.uint) :
  Forall (fun c => is_digit c = true) (lit (NilEmpty.string_of_uint d)).
Proof.
  induction d; cbn [NilEmpty.string_of_uint]; try constructor; try reflexivity;
    exact IHd.
Qed.

Lemma Number_toString_nonneg_digits (z : Z) :
  0 <= z -> Forall (fun c => is_digit c = true) (Number_toString z).
Proof.
  intros Hz. unfold Number_toString. destruct z as [|p|p]; [| |lia].
  - repeat constructor.
  - cbn [Z.to_int NilZero.string_of_int]. unfold NilZero.string_of_uint.
    destruct (Pos.to_uint p) eqn:Hp; try apply string_of_uint_digits.
    repeat constructor.
Qed.

Lemma Number_toString_chars (z : Z) :
  Forall (fun c => is_digit c = true \/ c = 45%N) (Number_toString z).
Proof.
  destruct (Z_le_gt_dec 0 z) as [Hz|Hz].
  - eapply Forall_impl; [apply Number_toString_nonneg_digits; exact Hz|].
    intros c Hc. left. exact Hc.
  - unfold Number_toString. destruct z as [|p|p]; try lia.
    cbn [Z.to_int NilZero.string_of_int]. unfold lit. cbn [list_ascii_of_string map].
    constructor; [right; reflexivity|].
    pose proof (Number_toString_nonneg_digits (Z.pos p) (Pos2Z.is_nonneg p)) as H.
    unfold Number_toString in H. cbn [Z.to_int NilZero.string_of_int] in H.
    eapply Forall_impl; [exact H|]. intros c Hc. left. exact Hc.
Qed.

Lemma Number_toString_negative (z : Z) :
  z < 0 -> exists rest, Number_toString z = 45%N :: rest.
Proof.
  intros Hz. destruct z as [|p|p]; try lia.
  unfold Number_toString. cbn [Z.to_int NilZero.string_of_int]. unfold lit.
  cbn [list_ascii_of_string map]. eexists. reflexivity.
Qed.

(** The digits of a non-negative integer read back as that integer. *)
Lemma decimal_value_acc (d : Decimal.uint) : forall acc : positive,
  fold_left (fun acc c => 10 * acc + (Z.of_N c - 48))
            (lit (NilEmpty.string_of_uint d)) (Z.pos acc)
  = Z.pos (Pos.of_uint_acc d acc).
Proof.
  induction d as [|d IH|d IH|d IH|d IH|d IH|d IH|d IH|d IH|d IH|d IH]; intros acc;
    [reflexivity|..];
    cbn [NilEmpty.string_of_uint Pos.of_uint_acc];
    unfold lit in *; cbn [list_ascii_of_string map fold_left];
    rewrite <- IH; f_equal; cbn [N_of_ascii N_of_digits]; lia.
Qed.

Lemma decimal_value_uint (d : Decimal.uint) :
  decimal_value (lit (NilEmpty.string_of_uint d)) = Z.of_N (Pos.of_uint d).
Proof.
  unfold decimal_value.
  induction d as [|d IH|d IH|d IH|d IH|d IH|d IH|d IH|d IH|d IH|d IH];
    [reflexivity|exact IH|..];
    cbn [NilEmpty.string_of_uint Pos.of_uint N.of_uint Z.of_N];
    rewrite <- decimal_value_acc; reflexivity.
Qed.

Lemma Number_toString_value (z : Z) :
  0 <= z -> decimal_value (Number_toString z) = z.
Proof.
  intros Hz. destruct z as [|p|p]; [reflexivity| |lia].
  unfold Number_toString. cbn [Z.to_int NilZero.string_of_int].
  unfold NilZero.string_of_uint.
  destruct (Pos.to_uint p) eqn:Hp;
    try (rewrite decimal_value_uint, <- Hp, DecimalPos.Unsigned.of_to; reflexivity).
  exfalso. exact (DecimalPos.Unsigned.to_uint_nonnil p Hp).
Qed.

(** ** POST /api/create-clip *)

(** The run of a request that passes validation, step by step: the name
    (line 218), the log line of line 223, the command line of line 226, the
    pipeline, the look at the output file. *)
Lemma create_clip_run
    (E : env) (now : Z) (req_body : list (jsstring * value)) (w : world) :
  let url := lookup_member (lit "url") req_body in
  let startTime := lookup_member (lit "startTime") req_body in
  let duration := lookup_member (lit "duration") req_body in
  let clipName := lookup_member (lit "clipName") req_body in
  falsy url = false -> is_undefined startTime = false -> falsy duration = false ->
  run (create_clip E now req_body) w =
  match safeName_of clipName with
  | Err e => (Err e, w)
  | Ok name =>
      let outputFile := outputFile_of name now in
      let c := ClipPipeline url startTime duration (DOWNLOADS_DIR, outputFile) in
      let failed d := (Ok tt, {| disk := d; calls := calls w ++ [Exec c];
                                 sent := sent w ++ [mkResponse 500 clip_failed] |}) in
      if ToString_ok startTime && ToString_ok duration then
        if ToString_ok url then
          match child_process E c (disk w) with
          | SpawnFailed _ => failed (disk w)
          | Exited (Some _) _ after => failed after
          | Exited None _ after =>
              match lookup_path after (DOWNLOADS_DIR, outputFile) with
              | Some n =>
                  match node_kind n with
                  | Broken => failed after
                  | _ => (Ok tt,
                          {| disk := after; calls := calls w ++ [Exec c];
                             sent := sent w ++
                                     [mkResponse 200
                                        (ClipBody (lit "/downloads/" ++ outputFile)
                                                  outputFile (node_size n))] |})
                  end
              | None => failed after
              end
          end
        else (Ok tt, {| disk := disk w; calls := calls w;
                        sent := sent w ++ [mkResponse 500 clip_failed] |})
      else (Err TypeError, w)
  end.
Proof.
  intros url startTime duration clipName Hurl Hst Hdur.
  unfold create_clip.
  fold url. fold startTime. fold duration. fold clipName.
  rewrite Hurl, Hdur, Hst. cbn [orb].
  rewrite run_bind.
  destruct (safeName_of clipName) as [name|e]; [|reflexivity].
  cbn [lift run]. cbv zeta. rewrite run_bind. unfold template at 1. cbn [forallb].
  rewrite andb_true_r.
  destruct (ToString_ok startTime && ToString_ok duration) eqn:Hlog;
    cbn [lift run]; [|reflexivity].
  rewrite run_try_catch, run_bind, exec_await_run.
  unfold template. cbn [forallb]. rewrite andb_true_r, Hlog, andb_true_r.
  destruct (ToString_ok url); [|reflexivity].
  destruct (child_process E _ (disk w)) as [e|[e|] out after]; try reflexivity.
  rewrite run_bind, existsSync_run. cbn [disk].
  destruct (lookup_path after (DOWNLOADS_DIR, outputFile_of name now)) as [n|] eqn:Hn;
    [|reflexivity].
  destruct (node_kind n) eqn:Hk; try reflexivity;
    rewrite run_bind, statSync_run; cbn [disk]; rewrite Hn, Hk; reflexivity.
Qed.

(** What a validated request leaves in the stream of responses: nothing,
    or one response with status 200 or 500. *)
Lemma create_clip_valid_sent
    (E : env) (now : Z) (req_body : list (jsstring * value)) (w : world) :
  let url := lookup_member (lit "url") req_body in
  let startTime := lookup_member (lit "startTime") req_body in
  let duration := lookup_member (lit "duration") req_body in
  falsy url = false -> is_undefined startTime = false -> falsy duration = false ->
  sent (snd (run (create_clip E now req_body) w)) = sent w \/
  exists status b,
    sent (snd (run (create_clip E now req_body) w)) = sent w ++ [mkResponse status b] /\
    (status = 200 \/ status = 500).
Proof.
  intros url startTime duration Hurl Hst Hdur.
  rewrite (create_clip_run E now req_body w Hurl Hst Hdur).
  fold url. fold startTime. fold duration. cbv zeta.
  destruct (safeName_of _) as [name|e]; [|left; reflexivity].
  destruct (ToString_ok startTime && ToString_ok duration); [|left; reflexivity].
  destruct (ToString_ok url); [|right; eexists _, _; split; [reflexivity|auto]].
  destruct (child_process E _ (disk w)) as [e|[e|] out after];
    try (right; eexists _, _; split; [reflexivity|auto]).
  destruct (lookup_path after _) as [n|];
    [destruct (node_kind n)|]; right; eexists _, _; split; try reflexivity; auto.
Qed.

Lemma create_clip_invalid_run
    (E : env) (now : Z) (req_body : list (jsstring * value)) (w : world) :
  let url := lookup_member (lit "url") req_body in
  let startTime := lookup_member (lit "startTime") req_body in
  let duration := lookup_member (lit "duration") req_body in
  falsy url = true \/ startTime = None \/ falsy duration = true ->
  run (create_clip E now req_body) w =
  (Ok tt, {| disk := disk w; calls := calls w;
             sent := sent w ++ [mkResponse 400 (ErrorBody (Text (lit "Parameter fehlen")))] |}).
Proof.
  intros url startTime duration H. unfold create_clip.
  fold url. fold startTime. fold duration.
  assert (Hc : falsy url || is_undefined startTime || falsy duration = true).
  { destruct H as [ -> | [ -> | -> ] ]; [reflexivity| |].
    - destruct (falsy url); reflexivity.
    - apply orb_true_r. }
  rewrite Hc. reflexivity.
Qed.

Lemma create_clip_valid_not_rejected
    (E : env) (now : Z) (req_body : list (jsstring * value)) (w : world) :
  let url := lookup_member (lit "url") req_body in
  let startTime := lookup_member (lit "startTime") req_body in
  let duration := lookup_member (lit "duration") req_body in
  falsy url = false -> is_undefined startTime = false -> falsy duration = false ->
  ~ rejected w (snd (run (create_clip E now req_body) w)).
Proof.
  intros url startTime duration Hurl Hst Hdur [[msg Hsent] _].
  destruct (create_clip_valid_sent E now req_body w Hurl Hst Hdur)
    as [H|(status & b & H & Hstatus)]; rewrite H in Hsent.
  - exact (app_singleton_neq _ _ Hsent).
  - apply app_singleton_inj in Hsent. injection Hsent as Hs _.
    destruct Hstatus; lia.
Qed.

(** C6. The create-clip handler answers 400 with an [error] field, without
    starting any external process, exactly when [url] is missing (absent or
    otherwise falsy), [startTime] is [undefined], or [duration] is falsy.
    With [startTime] 0 and [duration] 0 the request is rejected; with
    [startTime] 0 and a non-zero duration it is not. *)
Theorem create_clip_validation :
  (forall (E : env) (now : Z) (req_body : list (jsstring * value)) (w : world),
      rejected w (snd (run (create_clip E now req_body) w)) <->
      (falsy (lookup_member (lit "url") req_body) = true \/
       lookup_member (lit "startTime") req_body = None \/
       falsy (lookup_member (lit "duration") req_body) = true)) /\
  (forall (E : env) (now : Z) (w : world),
      rejected w (snd (run (create_clip E now (clip_request 0 0)) w))) /\
  (forall (E : env) (now : Z) (w : world),
      ~ rejected w (snd (run (create_clip E now (clip_request 0 30)) w))).
Proof.
  assert (Hiff : forall E now req_body w,
             rejected w (snd (run (create_clip E now req_body) w)) <->
             (falsy (lookup_member (lit "url") req_body) = true \/
              lookup_member (lit "startTime") req_body = None \/
              falsy (lookup_member (lit "duration") req_body) = true)).
  { intros E now req_body w. split.
    - intros Hrej.
      destruct (falsy (lookup_member (lit "url") req_body)) eqn:Hurl; [auto|].
      destruct (lookup_member (lit "startTime") req_body) as [st|] eqn:Hst; [|auto].
      destruct (falsy (lookup_member (lit "duration") req_body)) eqn:Hdur; [auto|].
      exfalso. revert Hrej. apply create_clip_valid_not_rejected.
      + exact Hurl.
      + rewrite Hst. reflexivity.
      + exact Hdur.
    - intros H. rewrite create_clip_invalid_run by exact H.
      split; [eexists; reflexivity|reflexivity]. }
  split; [exact Hiff|]. split.
  - intros E now w. apply Hiff. right. right. reflexivity.
  - intros E now w Hrej. apply Hiff in Hrej.
    destruct Hrej as [H|[H|H]]; vm_compute in H; discriminate.
Qed.

Lemma lookup_map {A B} (f : A -> B) (l : list A) (i : nat) (x : A) :
  l !! i = Some x -> map f l !! i = Some (f x).
Proof.
  revert i. induction l as [|y l IH]; intros [|i]; simpl; try discriminate.
  - intros [= ->]. reflexivity.
  - apply IH.
Qed.

Lemma sanitize_allowed (s : jsstring) : Forall (fun c => allowed c = true) (sanitize s).
Proof.
  induction s as [|c s IH]; [constructor|].
  cbn [sanitize map]. constructor; [|exact IH].
  destruct (allowed c) eqn:Hc; [exact Hc|reflexivity].
Qed.

Lemma safeName_of_base (clipName : option value) :
  name_or_nothing clipName ->
  safeName_of clipName = Ok (take 50 (sanitize (base_name clipName))).
Proof.
  unfold safeName_of, base_name, or_else, substring.
  intros [Hf|[s ->]].
  - rewrite Hf. reflexivity.
  - destruct (falsy (Some (VStr s))); reflexivity.
Qed.

(** A truthy [clipName] that is no string: [replace] does not exist, the
    handler throws before it sends anything or starts a process. *)
Lemma create_clip_name_not_a_string
    (E : env) (now : Z) (req_body : list (jsstring * value)) (w : world) :
  falsy (lookup_member (lit "url") req_body) = false ->
  is_undefined (lookup_member (lit "startTime") req_body) = false ->
  falsy (lookup_member (lit "duration") req_body) = false ->
  ~ name_or_nothing (lookup_member (lit "clipName") req_body) ->
  run (create_clip E now req_body) w = (Err TypeError, w).
Proof.
  intros Hurl Hst Hdur Hname. unfold create_clip.
  rewrite Hurl, Hst, Hdur. cbn [orb]. rewrite run_bind.
  assert (Hs : safeName_of (lookup_member (lit "clipName") req_body) = Err TypeError).
  { unfold safeName_of, or_else, name_or_nothing in *.
    destruct (falsy (lookup_member (lit "clipName") req_body)) eqn:Hf; [tauto|].
    destruct (lookup_member (lit "clipName") req_body) as [[| | |s| |]|]; try reflexivity.
    exfalso. apply Hname. right. eexists; reflexivity. }
  rewrite Hs. reflexivity.
Qed.

(** C10, as stated, fails: the request [{url: "x", startTime: 0, duration:
    30, clipName: 5}] passes validation, yet no name is built for it: a
    number has no [replace] method, and the handler ends with a TypeError. *)
Lemma create_clip_numeric_name :
  ~ rejected fresh_world
      (snd (run (create_clip env_prose 1700000000000 numeric_name_request) fresh_world)) /\
  lookup_member (lit "clipName") numeric_name_request = Some (VNum 5) /\
  safeName_of (Some (VNum 5)) = Err TypeError /\
  run (create_clip env_prose 1700000000000 numeric_name_request) fresh_world
  = (Err TypeError, fresh_world).
Proof.
  split; [|split; [|split]]; try (vm_compute; reflexivity).
  apply create_clip_valid_not_rejected; reflexivity.
Qed.

(** C10, amended. For a create-clip request that passes validation and whose
    [clipName] is absent, falsy or a string: the sanitised name is the text
    [clipName || 'clip'] cut to its first 50 characters, each character
    outside [a-zA-Z0-9-_] replaced by an underscore, so every character of
    it lies in that set and it is at most 50 long; a falsy [clipName] (the
    empty string included) gives the name "clip".  The output file name is
    that name, a hyphen, the timestamp in decimal digits and ".mp4": the
    pipeline is started once, on that file in the downloads directory, unless [url],
    [startTime] or [duration] cannot be converted to text (then it is not
    started), and a success response carries that file name and
    "/downloads/" followed by it.  For the request [{url: "x", startTime: 0,
    duration: 30, clipName: "Mein Clip #1!"}] at time 1700000000000 the file
    is "Mein_Clip__1_-1700000000000.mp4". *)
Theorem create_clip_safe_name :
  (forall (E : env) (now : Z) (req_body : list (jsstring * value)) (w : world),
      let url := lookup_member (lit "url") req_body in
      let startTime := lookup_member (lit "startTime") req_body in
      let duration := lookup_member (lit "duration") req_body in
      let clipName := lookup_member (lit "clipName") req_body in
      let w' := snd (run (create_clip E now req_body) w) in
      falsy url = false -> is_undefined startTime = false -> falsy duration = false ->
      name_or_nothing clipName ->
      exists safeName,
        safeName_of clipName = Ok safeName /\
        length safeName = Nat.min 50 (length (base_name clipName)) /\
        (forall i c, (i < 50)%nat -> base_name clipName !! i = Some c ->
                     safeName !! i = Some (if allowed c then c else 95%N)) /\
        Forall (fun c => allowed c = true) safeName /\
        (length safeName <= 50)%nat /\
        (falsy clipName = true -> safeName = lit "clip") /\
        let outputFile := safeName ++ lit "-" ++ Number_toString now ++ lit ".mp4" in
        (0 <= now ->
         Forall (fun c => is_digit c = true) (Number_toString now) /\
         decimal_value (Number_toString now) = now) /\
        (ToString_ok url && ToString_ok startTime && ToString_ok duration = true ->
         calls w' = calls w ++ [Exec (ClipPipeline url startTime duration
                                                   (DOWNLOADS_DIR, outputFile))]) /\
        (ToString_ok url && ToString_ok startTime && ToString_ok duration = false ->
         calls w' = calls w) /\
        (forall downloadUrl filename size,
            sent w' = sent w ++ [mkResponse 200 (ClipBody downloadUrl filename size)] ->
            filename = outputFile /\ downloadUrl = lit "/downloads/" ++ outputFile)) /\
  run (create_clip env_prose 1700000000000 named_request) fresh_world
  = (Ok tt,
     {| disk := write_file (DOWNLOADS_DIR, lit "Mein_Clip__1_-1700000000000.mp4") empty_disk;
        calls := [Exec (ClipPipeline (Some (VStr (lit "x"))) (Some (VNum 0))
                          (Some (VNum 30))
                          (DOWNLOADS_DIR, lit "Mein_Clip__1_-1700000000000.mp4"))];
        sent := [mkResponse 200
                   (ClipBody (lit "/downloads/Mein_Clip__1_-1700000000000.mp4")
                             (lit "Mein_Clip__1_-1700000000000.mp4") 1024)] |}).
Proof.
  split; [|vm_compute; reflexivity].
  intros E now req_body w url startTime duration clipName w' Hurl Hst Hdur Hname.
  exists (take 50 (sanitize (base_name clipName))).
  pose proof (safeName_of_base clipName Hname) as Hsafe.
  split; [exact Hsafe|].
  split; [unfold sanitize; rewrite length_take, length_map; reflexivity|].
  split.
  { intros i c Hi Hc. rewrite lookup_take_lt by exact Hi.
    unfold sanitize.
    exact (lookup_map (fun c => if allowed c then c else 95%N) _ _ _ Hc). }
  split; [apply Forall_take, sanitize_allowed|].
  split; [rewrite length_take; lia|].
  split.
  { intros Hf. unfold base_name, or_else. rewrite Hf. vm_compute. reflexivity. }
  cbv zeta. subst w'.
  split.
  { intros Hnow. split; [apply Number_toString_nonneg_digits|apply Number_toString_value];
      exact Hnow. }
  rewrite (create_clip_run E now req_body w Hurl Hst Hdur).
  fold url. fold startTime. fold duration. fold clipName. rewrite Hsafe. cbv zeta.
  change (outputFile_of (take 50 (sanitize (base_name clipName))) now)
    with (take 50 (sanitize (base_name clipName)) ++ lit "-"
          ++ Number_toString now ++ lit ".mp4").
  set (outputFile := take 50 (sanitize (base_name clipName)) ++ lit "-"
                     ++ Number_toString now ++ lit ".mp4").
  assert (Hno : forall (l : list response) (r r' : response),
             l ++ [r] = l ++ [r'] -> r = r') by (intros l r r'; apply app_singleton_inj).
  rewrite <- !andb_assoc.
  destruct (ToString_ok startTime && ToString_ok duration) eqn:Hlog.
  2:{ rewrite andb_false_r.
      cbn [snd calls sent]. split; [discriminate|]. split; [reflexivity|].
      intros d f sz H. exfalso. exact (app_singleton_neq _ _ H). }
  rewrite andb_true_r.
  destruct (ToString_ok url).
  2:{ cbn [snd calls sent]. split; [discriminate|]. split; [reflexivity|].
      intros d f sz H. apply Hno in H. discriminate. }
  split; [intros _|split; [discriminate|]].
  - destruct (child_process E _ (disk w)) as [e|[e|] out after]; try reflexivity.
    destruct (lookup_path after _) as [n|]; [destruct (node_kind n)|]; reflexivity.
  - intros d f sz.
    destruct (child_process E _ (disk w)) as [e|[e|] out after];
      try (cbn [snd sent]; intros H; apply Hno in H; discriminate).
    destruct (lookup_path after _) as [n|]; [destruct (node_kind n)|];
      cbn [snd sent]; intros H; apply Hno in H; try discriminate;
      injection H as <- <- _; split; reflexivity.
Qed.

Lemma create_clip_safe_name_witness :
  exists safeName,
    safeName_of (Some (VStr (lit "Mein Clip #1!"))) = Ok safeName /\
    safeName = lit "Mein_Clip__1_" /\
    Forall (fun c => allowed c = true) safeName /\
    calls (snd (run (create_clip env_prose 1700000000000 named_request) fresh_world))
    = [Exec (ClipPipeline (Some (VStr (lit "x"))) (Some (VNum 0)) (Some (VNum 30))
               (DOWNLOADS_DIR,
                safeName ++ lit "-" ++ Number_toString 1700000000000 ++ lit ".mp4"))].
Proof.
  destruct (proj1 create_clip_safe_name env_prose 1700000000000 named_request fresh_world)
    as (safeName & Hs & _ & _ & Hall & _ & _ & _ & Hcalls & _).
  - reflexivity.
  - reflexivity.
  - reflexivity.
  - right. eexists. reflexivity.
  - exists safeName. split; [exact Hs|]. split; [|split; [exact Hall|apply Hcalls; reflexivity]].
    vm_compute in Hs. injection Hs as <-. reflexivity.
Defined.

(** ** The cleanup timer *)

Lemma sweep_entry_run t d f w :
  run (sweep_entry t d f) w =
  (Ok tt,
   match entries d (disk w) with
   | Some m =>
       match m !! f with
       | Some n => if swept t n
                   then {| disk := set_entries d (delete f m) (disk w); calls := calls w; sent := sent w |}
                   else w
       | None => w
       end
   | None => w
   end).
Proof.
  unfold sweep_entry, try_catch, statSync, unlinkSync, lookup_path, swept. simpl.
  destruct (entries d (disk w)) as [m|] eqn:Em; simpl; [|reflexivity].
  destruct (m !! f) as [n|] eqn:En; simpl; [|reflexivity].
  destruct n as [k mt sz]; simpl.
  destruct k; simpl; try reflexivity.
  all: destruct (Qltb mt t); simpl; try reflexivity.
  - rewrite Em. simpl. rewrite En. simpl. reflexivity.
  - rewrite Em. simpl. rewrite En. simpl. reflexivity.
Qed.

Lemma swept_map_cons (t : Q) (f : jsstring) (files : list jsstring) (m : gmap jsstring node) :
  swept_map t (f :: files) m =
  swept_map t files (match m !! f with
                     | Some n => if swept t n then delete f m else m
                     | None => m
                     end).
Proof. reflexivity. Qed.

Lemma forEach_sweep_entry t d files : forall w m,
  entries d (disk w) = Some m ->
  run (forEach files (sweep_entry t d)) w =
  (Ok tt, {| disk := set_entries d (swept_map t files m) (disk w);
             calls := calls w; sent := sent w |}).
Proof.
  induction files as [|f files IH]; intros w m Hm; cbn [forEach].
  - simpl. rewrite set_entries_same by exact Hm. destruct w; reflexivity.
  - rewrite run_bind, sweep_entry_run, Hm, swept_map_cons.
    destruct (m !! f) as [n|] eqn:En.
    + destruct (swept t n) eqn:Es.
      * erewrite IH by (simpl; apply entries_set_entries).
        simpl. rewrite set_entries_twice. reflexivity.
      * erewrite IH by exact Hm. reflexivity.
    + erewrite IH by exact Hm. reflexivity.
Qed.

Lemma swept_map_lookup t files : forall (m : gmap jsstring node) g,
  swept_map t files m !! g =
  match m !! g with
  | Some n => if bool_decide (g ∈ files) && swept t n then None else Some n
  | None => None
  end.
Proof.
  induction files as [|f files IH]; intros m g; simpl.
  - destruct (m !! g); reflexivity.
  - rewrite IH. clear IH.
    destruct (decide (g = f)) as [->|Hne].
    + destruct (m !! f) as [n|] eqn:En.
      * destruct (swept t n) eqn:Es.
        -- rewrite lookup_delete_eq. rewrite bool_decide_eq_true_2 by left. simpl. reflexivity.
        -- rewrite En, Es. rewrite !andb_false_r. reflexivity.
      * rewrite En. reflexivity.
    + assert (Hin : bool_decide (g ∈ f :: files) = bool_decide (g ∈ files)).
      { apply bool_decide_ext. rewrite elem_of_cons. tauto. }
      rewrite Hin.
      destruct (m !! f) as [n|] eqn:En; [destruct (swept t n)|]; try reflexivity.
      rewrite lookup_delete_ne by congruence. reflexivity.
Qed.

Lemma listing_complete (m : gmap jsstring node) g n :
  m !! g = Some n -> g ∈ map fst (map_to_list m).
Proof.
  intros H. apply list_elem_of_In, in_map_iff. exists (g, n). split; [reflexivity|].
  apply list_elem_of_In, elem_of_map_to_list. exact H.
Qed.

Lemma sweep_dir_run t d w :
  run (sweep_dir t d) w =
  (Ok tt,
   match entries d (disk w) with
   | Some m => {| disk := set_entries d (swept_map t (map fst (map_to_list m)) m) (disk w);
                  calls := calls w; sent := sent w |}
   | None => w
   end).
Proof.
  unfold sweep_dir, existsSync_dir, readdirSync. rewrite !run_bind. simpl.
  destruct (entries d (disk w)) as [m|] eqn:Em; simpl; [|reflexivity].
  rewrite Em. simpl. apply forEach_sweep_entry. exact Em.
Qed.

Lemma sweep_dir_lookup t d w w' :
  run (sweep_dir t d) w = (Ok tt, w') ->
  forall d' g,
    lookup_path (disk w') (d', g) =
    match lookup_path (disk w) (d', g) with
    | Some n => if bool_decide (d' = d) && swept t n then None else Some n
    | None => None
    end.
Proof.
  rewrite sweep_dir_run. intros [= <-] d' g. unfold lookup_path; simpl.
  destruct (entries d (disk w)) as [m|] eqn:Em; simpl.
  - destruct (decide (d' = d)) as [->|Hne].
    + rewrite entries_set_entries, Em, swept_map_lookup.
      rewrite (bool_decide_eq_true_2 (d = d) eq_refl). simpl.
      destruct (m !! g) as [n|] eqn:En; [|reflexivity].
      rewrite (bool_decide_eq_true_2 _ (listing_complete m g n En)).
      reflexivity.
    + rewrite entries_set_entries_ne by congruence.
      rewrite (bool_decide_eq_false_2 _ Hne). simpl.
      destruct (entries d' (disk w)) as [m'|]; [|reflexivity].
      destruct (m' !! g); reflexivity.
  - destruct (decide (d' = d)) as [->|Hne].
    + rewrite Em. reflexivity.
    + rewrite (bool_decide_eq_false_2 _ Hne). simpl.
      destruct (entries d' (disk w)) as [m'|]; [|reflexivity].
      destruct (m' !! g); reflexivity.
Qed.

Lemma swept_true (t : Q) (n : node) :
  swept t n = true <-> node_kind n = File /\ (mtimeMs n < t)%Q.
Proof.
  unfold swept. destruct (node_kind n); rewrite ?Qltb_lt; intuition congruence.
Qed.

Lemma sweep_lookup (now : Z) (w : world) :
  exists w',
    run (sweep now) w = (Ok tt, w') /\
    forall d g,
      lookup_path (disk w') (d, g) =
      match lookup_path (disk w) (d, g) with
      | Some n => if swept (inject_Z (now - 3600000)) n then None else Some n
      | None => None
      end.
Proof.
  unfold sweep. cbn [forEach].
  destruct (run (sweep_dir (inject_Z (now - 3600000)) DOWNLOADS_DIR) w) as [r1 w1] eqn:R1.
  pose proof R1 as R1'. rewrite sweep_dir_run in R1'. injection R1' as <- _.
  destruct (run (sweep_dir (inject_Z (now - 3600000)) TEMP_DIR) w1) as [r2 w2] eqn:R2.
  pose proof R2 as R2'. rewrite sweep_dir_run in R2'. injection R2' as <- _.
  exists w2. split; [rewrite run_bind, R1, run_bind, R2; reflexivity|].
  intros d g.
  rewrite (sweep_dir_lookup _ _ _ _ R2), (sweep_dir_lookup _ _ _ _ R1).
  destruct (lookup_path (disk w) (d, g)) as [n|]; [|reflexivity].
  destruct d; simpl; destruct (swept _ n) eqn:Es; simpl; rewrite ?Es; reflexivity.
Qed.

(** C9. One firing of the cleanup timer at time [now] ends without an
    exception and has visited every entry of both working directories: a
    regular file whose modification time is more than one hour
    (3600000 ms) before [now] is gone afterwards, and an entry that is not
    older than that, or that is no regular file (so that reading or deleting
    it raises an error, which is swallowed), is still there unchanged,
    whatever the other entries are. *)
Theorem sweep_deletes_old_keeps_young (now : Z) (w : world) :
  exists w',
    run (sweep now) w = (Ok tt, w') /\
    forall (d : dir) (file : jsstring) (n : node),
      lookup_path (disk w) (d, file) = Some n ->
      (node_kind n = File -> (mtimeMs n < inject_Z (now - 3600000))%Q ->
       lookup_path (disk w') (d, file) = None) /\
      ((inject_Z (now - 3600000) <= mtimeMs n)%Q \/ node_kind n <> File ->
       lookup_path (disk w') (d, file) = Some n).
Proof.
  destruct (sweep_lookup now w) as (w' & Hrun & Hlook).
  exists w'. split; [exact Hrun|].
  intros d file n Hn. rewrite Hlook, Hn. split.
  - intros Hk Hold.
    rewrite (proj2 (swept_true _ n) (conj Hk Hold)). reflexivity.
  - intros Hyoung.
    destruct (swept (inject_Z (now - 3600000)) n) eqn:Es; [|reflexivity].
    apply swept_true in Es. destruct Es as [Hk Hold].
    destruct Hyoung as [Hy|Hy]; [|contradiction].
    exfalso. exact (Qlt_not_le _ _ Hold Hy).
Qed.

Lemma sweep_deletes_old_keeps_young_witness :
  exists w',
    run (sweep 10000000) littered_world = (Ok tt, w') /\
    lookup_path (disk w') (DOWNLOADS_DIR, lit "old.mp4") = None /\
    lookup_path (disk w') (DOWNLOADS_DIR, lit "new.mp4") = Some new_file /\
    lookup_path (disk w') (DOWNLOADS_DIR, lit "cache") = Some old_dir /\
    lookup_path (disk w') (DOWNLOADS_DIR, lit "latest") = Some old_link /\
    lookup_path (disk w') (TEMP_DIR, lit "audio-1.mp3") = None.
Proof.
  destruct (sweep_deletes_old_keeps_young 10000000 littered_world) as (w' & Hrun & H).
  exists w'. split; [exact Hrun|]. repeat split.
  - apply (H DOWNLOADS_DIR (lit "old.mp4") old_file); reflexivity.
  - apply (H DOWNLOADS_DIR (lit "new.mp4") new_file); [reflexivity|].
    left. discriminate.
  - apply (H DOWNLOADS_DIR (lit "cache") old_dir); [reflexivity|].
    right. discriminate.
  - apply (H DOWNLOADS_DIR (lit "latest") old_link); [reflexivity|].
    right. discriminate.
  - apply (H TEMP_DIR (lit "audio-1.mp3") old_file); reflexivity.
Defined.


(* ================================================================== *)
(** * Further properties *)

(** ** formatTime on whole and negative seconds *)

Lemma Qfloor_unique (x : Q) (z : Z) :
  (inject_Z z <= x)%Q -> (x < inject_Z (z + 1))%Q -> Qfloor x = z.
Proof.
  intros Hlo Hhi.
  assert (H1 : z <= Qfloor x).
  { rewrite <- (Qfloor_Z z). apply Qfloor_resp_le. exact Hlo. }
  assert (H2 : Qfloor x < z + 1).
  { rewrite Zlt_Qlt. eapply Qle_lt_trans; [apply Qfloor_le|exact Hhi]. }
  lia.
Qed.

Lemma Qfloor_div_60 (s : Q) : Qfloor (s / 60) = Qfloor s / 60.
Proof.
  pose proof (Qfloor_le (s / 60)) as Hlo.
  pose proof (Qlt_floor (s / 60)) as Hhi.
  pose proof (Qfloor_le s) as Slo.
  pose proof (Qlt_floor s) as Shi.
  set (q := Qfloor (s / 60)) in *. set (n := Qfloor s) in *.
  assert (Hs : (s == 60 * (s / 60))%Q) by field.
  rewrite inject_Z_plus in Hhi, Shi. change (inject_Z 1) with 1%Q in Hhi, Shi.
  assert (H1 : 60 * q <= n).
  { rewrite <- (Qfloor_Z (60 * q)). apply Qfloor_resp_le.
    rewrite inject_Z_mult. change (inject_Z 60) with 60%Q. lra. }
  assert (H2 : n < 60 * (q + 1)).
  { rewrite Zlt_Qlt, inject_Z_mult, inject_Z_plus.
    change (inject_Z 60) with 60%Q. change (inject_Z 1) with 1%Q. lra. }
  apply (Z.div_unique n 60 q (n - 60 * q)); lia.
Qed.

Lemma Qfloor_mod_60 (s : Q) : Qfloor (Qmod s 60) = Qfloor s mod 60.
Proof.
  unfold Qmod. change (inject_Z 60) with 60%Q. rewrite Qfloor_div_60.
  pose proof (Qfloor_le s) as Slo.
  pose proof (Qlt_floor s) as Shi.
  set (n := Qfloor s) in *.
  rewrite inject_Z_plus in Shi. change (inject_Z 1) with 1%Q in Shi.
  rewrite Z.mod_eq by lia.
  replace (n - 60 * (n / 60)) with (n + - (60 * (n / 60))) by lia.
  apply Qfloor_unique.
  - rewrite inject_Z_plus, inject_Z_opp, inject_Z_mult.
    change (inject_Z 60) with 60%Q. lra.
  - rewrite !inject_Z_plus, inject_Z_opp, inject_Z_mult.
    change (inject_Z 60) with 60%Q. change (inject_Z 1) with 1%Q. lra.
Qed.

(** Only the whole seconds count. *)
Lemma formatTime_whole (s : Q) :
  (0 <= s)%Q ->
  formatTime s
  = Number_toString (Qfloor s / 60) ++ lit ":" ++ two_digits (Qfloor s mod 60).
Proof.
  intros Hs. unfold formatTime, Math_floor.
  rewrite js_rem_60_nonneg by exact Hs.
  rewrite pad_two_digits by apply Qmod_60_range.
  rewrite Qfloor_div_60, Qfloor_mod_60. reflexivity.
Qed.

Lemma app_sep_inj (c : N) (l1 l2 r1 r2 : jsstring) :
  c ∉ l1 -> c ∉ l2 -> l1 ++ c :: r1 = l2 ++ c :: r2 -> l1 = l2 /\ r1 = r2.
Proof.
  revert l2. induction l1 as [|x l1 IH]; intros [|y l2] H1 H2 H; simpl in H.
  - injection H as ->. auto.
  - injection H as -> _. exfalso. apply H2. left.
  - injection H as -> _. exfalso. apply H1. left.
  - injection H as -> H.
    apply not_elem_of_cons in H1, H2. destruct H1 as [_ H1], H2 as [_ H2].
    destruct (IH l2 H1 H2 H) as [-> ->]. auto.
Qed.

Lemma colon_not_in_number (z : Z) : 58%N ∉ Number_toString z.
Proof.
  intros Hin. pose proof (Number_toString_chars z) as H.
  rewrite Forall_forall in H. destruct (H _ Hin) as [Hd|Hd]; discriminate.
Qed.

Lemma two_digits_inj (a b : Z) :
  0 <= a < 60 -> 0 <= b < 60 -> two_digits a = two_digits b -> a = b.
Proof.
  intros Ha Hb H. unfold two_digits, digit in H. injection H as Hq Hr.
  assert (Hq' : a / 10 = b / 10).
  { apply N.add_cancel_l in Hq. apply Z2N.inj in Hq; [exact Hq| |];
      apply Z.div_pos; lia. }
  assert (Hr' : a mod 10 = b mod 10).
  { apply N.add_cancel_l in Hr. apply Z2N.inj in Hr; [exact Hr| |];
      apply Z.mod_pos_bound; lia. }
  rewrite (Z.div_mod a 10), (Z.div_mod b 10) by lia. congruence.
Qed.

(** X1. Two non-negative times are displayed alike exactly when they have the
    same number of whole seconds: the fraction of a second never shows, and
    no two different whole seconds share a display. *)
Theorem formatTime_same_display_iff (s s' : Q) :
  (0 <= s)%Q -> (0 <= s')%Q ->
  (formatTime s = formatTime s' <-> Qfloor s = Qfloor s').
Proof.
  intros Hs Hs'. rewrite (formatTime_whole s Hs), (formatTime_whole s' Hs').
  assert (Hn : 0 <= Qfloor s).
  { change 0 with (Qfloor 0). apply Qfloor_resp_le. exact Hs. }
  assert (Hn' : 0 <= Qfloor s').
  { change 0 with (Qfloor 0). apply Qfloor_resp_le. exact Hs'. }
  split; [|intros ->; reflexivity].
  intros H. change (lit ":") with [58%N] in H. cbn [app] in H.
  apply app_sep_inj in H; try apply colon_not_in_number.
  destruct H as [Hm Hd]. apply Number_toString_inj in Hm.
  apply two_digits_inj in Hd; try (apply Z.mod_pos_bound; lia).
  rewrite (Z.div_mod (Qfloor s) 60), (Z.div_mod (Qfloor s') 60) by lia. congruence.
Qed.

Lemma formatTime_same_display_iff_witness :
  (0 <= 3599 # 1)%Q /\ (0 <= 35995 # 10)%Q /\
  formatTime (3599 # 1) = formatTime (35995 # 10).
Proof.
  split; [discriminate|]. split; [discriminate|].
  apply (formatTime_same_display_iff (3599 # 1) (35995 # 10)); try discriminate.
  reflexivity.
Defined.

Lemma pad_negative_table :
  Forall (fun k => padStart 2 (lit "0") (Number_toString (- Z.of_nat k))
                   = negative_seconds (Z.of_nat k)) (seq 0 60).
Proof. apply (bool_decide_unpack _). vm_compute. reflexivity. Qed.

Lemma pad_negative (k : Z) :
  0 <= k < 60 -> padStart 2 (lit "0") (Number_toString (- k)) = negative_seconds k.
Proof.
  intros Hk.
  pose proof pad_negative_table as T.
  rewrite Forall_forall in T.
  specialize (T (Z.to_nat k)).
  rewrite Z2Nat.id in T by lia.
  apply T. apply list_elem_of_In, in_seq. lia.
Qed.

(** The remainder of a negative whole number: the sign of the dividend. *)
Lemma js_rem_60_negative (n : Z) :
  0 < n -> Qfloor (js_rem (inject_Z (- n)) 60) = - (n mod 60).
Proof.
  intros Hn. unfold js_rem, Qtrunc.
  assert (Hneg : Qle_bool 0 (inject_Z (- n) / 60) = false).
  { destruct (Qle_bool 0 (inject_Z (- n) / 60)) eqn:Hb; [|reflexivity].
    exfalso. apply Qle_bool_iff in Hb.
    assert (H0 : (inject_Z (- n) < 0)%Q) by (change 0%Q with (inject_Z 0); rewrite <- Zlt_Qlt; lia).
    assert (H1 : (inject_Z (- n) == 60 * (inject_Z (- n) / 60))%Q) by field.
    lra. }
  rewrite Hneg. unfold Qceiling.
  assert (Hq : Qfloor (- (inject_Z (- n) / 60)) = n / 60).
  { rewrite <- (Qfloor_Z n) at 2. rewrite <- Qfloor_div_60.
    apply Qfloor_comp. rewrite inject_Z_opp. field. }
  rewrite Hq.
  rewrite <- (Qfloor_Z (- (n mod 60))). apply Qfloor_comp.
  rewrite Z.mod_eq by lia.
  replace (n - 60 * (n / 60)) with (n + - (60 * (n / 60))) by lia.
  rewrite !inject_Z_opp, inject_Z_plus, inject_Z_opp, inject_Z_mult.
  change (inject_Z 60) with 60%Q. ring.
Qed.

(** X2. A negative time is not clamped.  For a negative whole number of
    seconds [- n] (within the integers a number holds exactly) the display
    is the floor of [- n / 60], which is negative, a colon, and the remainder
    with the sign of the dividend: "00" when [n] is a multiple of 60, and
    otherwise a minus sign followed by [n mod 60] without padding.  So
    [formatTime(-5)] is "-1:-5", [formatTime(-60)] is "-1:00" and
    [formatTime(-75)] is "-2:-15". *)
Theorem formatTime_negative :
  (forall n : Z,
      0 < n <= 9007199254740991 ->
      formatTime (inject_Z (- n))
      = Number_toString (- n / 60) ++ [58%N] ++ negative_seconds (n mod 60) /\
      - n / 60 < 0 /\
      exists rest, formatTime (inject_Z (- n)) = 45%N :: rest) /\
  formatTime (-5 # 1) = lit "-1:-5" /\
  formatTime (-60 # 1) = lit "-1:00" /\
  formatTime (-75 # 1) = lit "-2:-15".
Proof.
  split; [|repeat split; vm_compute; reflexivity].
  intros n [Hn _].
  assert (Hm : - n / 60 < 0) by (apply Z.div_lt_upper_bound; lia).
  assert (Heq : formatTime (inject_Z (- n))
                = Number_toString (- n / 60) ++ [58%N] ++ negative_seconds (n mod 60)).
  { unfold formatTime, Math_floor.
    rewrite Qfloor_div_60, Qfloor_Z, (js_rem_60_negative n Hn).
    rewrite pad_negative by (apply Z.mod_pos_bound; lia). reflexivity. }
  split; [exact Heq|]. split; [exact Hm|].
  rewrite Heq. destruct (Number_toString_negative _ Hm) as [rest ->].
  eexists. reflexivity.
Qed.

Lemma formatTime_negative_witness :
  (0 < 75 <= 9007199254740991) /\
  formatTime (inject_Z (- 75))
  = Number_toString (-2) ++ [58%N] ++ [45%N; digit 1; digit 5].
Proof.
  split; [lia|].
  apply (proj1 formatTime_negative 75). lia.
Defined.

(** ** The bracket pattern and the reply *)

Lemma upto_last_app (c : N) (front post : jsstring) :
  c ∉ post -> upto_last c (front ++ c :: post) = Some (front ++ [c]).
Proof.
  intros Hpost. induction front as [|x front IH]; cbn [app upto_last].
  - rewrite (proj2 (upto_last_None c post) Hpost), N.eqb_refl. reflexivity.
  - rewrite IH. reflexivity.
Qed.

Lemma match_array_pattern_intro (pre inner post : jsstring) :
  91%N ∉ pre -> 93%N ∉ post ->
  match_array_pattern (pre ++ (91%N :: (inner ++ [93%N])) ++ post)
  = Some (91%N :: (inner ++ [93%N])).
Proof.
  intros Hpre Hpost. induction pre as [|x pre IH]; cbn [app match_array_pattern].
  - rewrite <- app_assoc. cbn [app]. rewrite upto_last_app by exact Hpost. reflexivity.
  - apply not_elem_of_cons in Hpre. destruct Hpre as [Hx Hpre].
    destruct (N.eqb_spec x 91) as [->|_]; [contradiction|].
    apply IH. exact Hpre.
Qed.

(** X3. The pattern of line 194 matches [m] in [s] exactly when [m] runs from
    the first opening bracket of [s] to its last closing bracket: [s] is
    some text without an opening bracket, then [m], then some text without
    a closing bracket. *)
Theorem match_array_pattern_iff (s m : jsstring) :
  match_array_pattern s = Some m <->
  exists pre inner post,
    s = pre ++ m ++ post /\
    m = 91%N :: (inner ++ [93%N]) /\
    (91%N ∉ pre) /\ (93%N ∉ post).
Proof.
  split; [apply match_array_pattern_Some|].
  intros (pre & inner & post & -> & -> & Hpre & Hpost).
  apply match_array_pattern_intro; assumption.
Qed.

Lemma findHighlights_of_response (E : env) (t : transcription) (w : world)
    (completion : value) (response : jsstring) :
  default [] (t_segments t) <> [] ->
  chat_completions_create E (request_for t) = Ok completion ->
  response_of completion = Ok response ->
  fst (run (findHighlights E t) w)
  = Ok (absorbed (match match_array_pattern response with
                  | Some jsonMatch =>
                      highlights ← JSON_parse jsonMatch; sort_highlights E highlights
                  | None => Ok []
                  end)).
Proof.
  intros Hne Hc Hr. rewrite findHighlights_run.
  destruct (default [] (t_segments t)); [contradiction|].
  cbn [fst]. unfold extracted. rewrite Hc, bind_Ok, Hr, bind_Ok. reflexivity.
Qed.

(** X4. Commentary around the array is ignored: when the reply text is
    [pre ++ m ++ post], with [m] bracketed, no opening bracket in [pre] and
    no closing bracket in [post], [findHighlights] returns what [m] alone
    parses and sorts to (the empty list when that fails). *)
Theorem findHighlights_ignores_commentary
    (E : env) (t : transcription) (w : world) (completion : value)
    (pre inner post : jsstring) :
  default [] (t_segments t) <> [] ->
  chat_completions_create E (request_for t) = Ok completion ->
  response_of completion = Ok (pre ++ (91%N :: (inner ++ [93%N])) ++ post) ->
  (91%N ∉ pre) -> (93%N ∉ post) ->
  fst (run (findHighlights E t) w)
  = Ok (absorbed (highlights ← JSON_parse (91%N :: (inner ++ [93%N]));
                  sort_highlights E highlights)).
Proof.
  intros Hne Hc Hr Hpre Hpost.
  rewrite (findHighlights_of_response E t w completion _ Hne Hc Hr).
  rewrite match_array_pattern_intro by assumption. reflexivity.
Qed.

Lemma findHighlights_ignores_commentary_witness :
  fst (run (findHighlights (sample_env [] None (Ok (completion_with reply_two)))
                           sample_transcription) fresh_world)
  = Ok (absorbed
          (highlights ←
             JSON_parse
               (91%N :: (dq "{'start':0,'end':20,'title':'A','reason':'x','score':50},{'start':20,'end':40,'title':'B','reason':'y','score':90}" ++ [93%N]));
           sort_highlights (sample_env [] None (Ok (completion_with reply_two)))
                           highlights)).
Proof.
  apply (findHighlights_ignores_commentary
           (sample_env [] None (Ok (completion_with reply_two)))
           sample_transcription fresh_world (completion_with reply_two)
           (lit "Hier sind die Clips: ")
           (dq "{'start':0,'end':20,'title':'A','reason':'x','score':50},{'start':20,'end':40,'title':'B','reason':'y','score':90}")
           (lit " Viel Erfolg!")).
  - discriminate.
  - reflexivity.
  - vm_compute. reflexivity.
  - apply (bool_decide_unpack _). vm_compute. reflexivity.
  - apply (bool_decide_unpack _). vm_compute. reflexivity.
Defined.

(** ** A null item *)

Lemma by_score_null_l (E : env) (y : value) : by_score E VNull y = Err TypeError.
Proof.
  unfold by_score. destruct y; cbn [get_named]; try reflexivity.
Qed.

Lemma by_score_null_r (E : env) (x : value) : by_score E x VNull = Err TypeError.
Proof. reflexivity. Qed.

Lemma by_score_error (E : env) (x y : value) (e : exn) :
  by_score E x y = Err e -> e = TypeError.
Proof.
  unfold by_score.
  destruct (get_named (Some y) (lit "score")) as [sb|e1] eqn:Hy.
  - rewrite bind_Ok.
    destruct (get_named (Some x) (lit "score")) as [sa|e2] eqn:Hx.
    + rewrite bind_Ok. discriminate.
    + intros [= <-]. destruct x; cbn in Hx; congruence.
  - intros [= <-]. destruct y; cbn in Hy; congruence.
Qed.

Lemma insert_sorted_error (E : env) (x : value) (l : list value) (e : exn) :
  insert_sorted (by_score E) x l = Err e -> e = TypeError.
Proof.
  induction l as [|y l IH]; cbn [insert_sorted]; [discriminate|].
  destruct (by_score E x y) as [v|e1] eqn:Hv.
  - rewrite bind_Ok. destruct (is_positive v); [|discriminate].
    destruct (insert_sorted (by_score E) x l) as [r|e2]; [discriminate|].
    intros [= <-]. apply IH. reflexivity.
  - intros [= <-]. eapply by_score_error. exact Hv.
Qed.

Lemma Array_sort_error (E : env) (l : list value) (e : exn) :
  Array_sort (by_score E) l = Err e -> e = TypeError.
Proof.
  induction l as [|x l IH]; cbn [Array_sort]; [discriminate|].
  destruct (Array_sort (by_score E) l) as [s|e1].
  - rewrite bind_Ok. apply insert_sorted_error.
  - intros [= <-]. apply IH. reflexivity.
Qed.

Lemma Array_sort_null (E : env) (items : list value) :
  VNull ∈ items -> (2 <= length items)%nat ->
  Array_sort (by_score E) items = Err TypeError.
Proof.
  induction items as [|x rest IH]; intros Hin Hlen; [simpl in Hlen; lia|].
  cbn [Array_sort].
  destruct (Array_sort (by_score E) rest) as [sorted|e] eqn:Hs.
  - rewrite bind_Ok.
    pose proof (Array_sort_perm _ _ _ Hs) as Hp.
    destruct sorted as [|y sorted].
    { apply Permutation_length in Hp. simpl in Hp, Hlen. lia. }
    cbn [insert_sorted].
    apply elem_of_cons in Hin. destruct Hin as [<-|Hin].
    + rewrite by_score_null_l. reflexivity.
    + destruct rest as [|r1 [|r2 rest]].
      * apply elem_of_nil in Hin. contradiction.
      * apply list_elem_of_singleton in Hin. subst r1.
        cbn [Array_sort] in Hs. rewrite bind_Ok in Hs. cbn [insert_sorted] in Hs.
        assert (Hy : y = VNull) by congruence. subst y.
        rewrite by_score_null_r. reflexivity.
      * assert (H0 : Ok (y :: sorted) = Err TypeError)
          by (apply IH; [exact Hin|simpl; lia]).
        discriminate H0.
  - apply Array_sort_error in Hs. subst e. reflexivity.
Qed.

(** X5. One [null] among two or more items of the parsed array makes the
    comparator throw, and [findHighlights] returns no highlight at all,
    whatever the other items are; a lone [null] is returned as it is, the
    comparator never being called. *)
Theorem findHighlights_null_item
    (E : env) (t : transcription) (w : world) (completion : value)
    (response jsonMatch : jsstring) (items : list value) :
  default [] (t_segments t) <> [] ->
  chat_completions_create E (request_for t) = Ok completion ->
  response_of completion = Ok response ->
  match_array_pattern response = Some jsonMatch ->
  JSON_parse jsonMatch = Ok (VArr items) ->
  VNull ∈ items ->
  fst (run (findHighlights E t) w)
  = Ok (match items with [_] => [VNull] | _ => [] end).
Proof.
  intros Hne Hc Hr Hm Hp Hin.
  rewrite (findHighlights_of_response E t w completion response Hne Hc Hr).
  rewrite Hm, Hp, bind_Ok. cbn [sort_highlights].
  destruct items as [|x [|y rest]].
  - apply elem_of_nil in Hin. contradiction.
  - apply list_elem_of_singleton in Hin. subst x. reflexivity.
  - rewrite Array_sort_null; [reflexivity|exact Hin|simpl; lia].
Qed.

Lemma findHighlights_null_item_witness :
  fst (run (findHighlights
              (sample_env [] None (Ok (completion_with (dq "[{'score':5},null]"))))
              sample_transcription) fresh_world)
  = Ok [].
Proof.
  apply (findHighlights_null_item
           (sample_env [] None (Ok (completion_with (dq "[{'score':5},null]"))))
           sample_transcription fresh_world
           (completion_with (dq "[{'score':5},null]"))
           (dq "[{'score':5},null]") (dq "[{'score':5},null]")
           [VObj [(lit "score", VNum 5)]; VNull]).
  - discriminate.
  - reflexivity.
  - vm_compute. reflexivity.
  - vm_compute. reflexivity.
  - vm_compute. reflexivity.
  - right. left.
Defined.

(** ** POST /api/video-info, further *)

Lemma video_info_callback_run (stdout : jsstring) (w : world) :
  run (video_info_callback None stdout) w =
  match JSON_parse stdout with
  | Err e => (Err e, w)
  | Ok VNull => (Err TypeError, w)
  | Ok info =>
      let field key := get_optional (Some info) key in
      (Ok tt,
       {| disk := disk w; calls := calls w;
          sent := sent w ++
                  [mkResponse 200
                     (VideoInfoBody (field (lit "title")) (field (lit "duration"))
                        (field (lit "thumbnail"))
                        (or_else (field (lit "uploader")) (field (lit "channel")))
                        (field (lit "id")))] |})
  end.
Proof.
  unfold video_info_callback.
  destruct (JSON_parse stdout) as [info|e]; [|reflexivity].
  destruct info as [| | | | |members]; try reflexivity.
  cbn -[lit]. unfold or_else.
  destruct (falsy (lookup_member (lit "uploader") members)); reflexivity.
Qed.

Lemma video_info_run (E : env) (req_body : list (jsstring * value)) (w : world) :
  let url := lookup_member (lit "url") req_body in
  falsy url = false ->
  run (video_info E req_body) w =
  let w1 := {| disk := disk w; calls := calls w ++ [Exec (YtDlpDumpJson url)];
               sent := sent w |} in
  if ToString_ok url then
    match child_process E (YtDlpDumpJson url) (disk w) with
    | SpawnFailed e => run (respond 500 (ErrorBody (MessageOf e))) w1
    | Exited (Some _) _ after =>
        run (respond 500 (ErrorBody (Text (lit "Video nicht gefunden"))))
            {| disk := after; calls := calls w1; sent := sent w |}
    | Exited None stdout after =>
        run (video_info_callback None stdout)
            {| disk := after; calls := calls w1; sent := sent w |}
    end
  else run (respond 500 (ErrorBody (MessageOf TypeError))) w.
Proof.
  intros url Hurl. unfold video_info. fold url. rewrite Hurl, template_one. cbn zeta.
  destruct (ToString_ok url); [|reflexivity].
  rewrite run_bind. cbn [record_call run]. rewrite run_bind. cbn [get_disk run disk].
  destruct (child_process E (YtDlpDumpJson url) (disk w)) as [e|[e|] out after];
    reflexivity.
Qed.

(** X6. The video-info handler answers 400 with an [error] field, starting no
    process, exactly when [url] is absent or otherwise falsy. *)
Theorem video_info_validation
    (E : env) (req_body : list (jsstring * value)) (w : world) :
  rejected w (snd (run (video_info E req_body) w)) <->
  falsy (lookup_member (lit "url") req_body) = true.
Proof.
  destruct (falsy (lookup_member (lit "url") req_body)) eqn:Hurl.
  - split; [reflexivity|]. intros _. unfold video_info. rewrite Hurl.
    split; [eexists; reflexivity|reflexivity].
  - split; [|discriminate]. intros [[msg Hsent] Hcalls]. exfalso.
    rewrite (video_info_run E req_body w Hurl) in Hcalls, Hsent.
    cbv zeta in Hcalls, Hsent.
    destruct (ToString_ok (lookup_member (lit "url") req_body)).
    2:{ cbn in Hsent. apply app_singleton_inj in Hsent. discriminate. }
    clear Hsent.
    destruct (child_process E _ (disk w)) as [e|[e|] out after].
    + cbn in Hcalls. symmetry in Hcalls. exact (app_singleton_neq _ _ Hcalls).
    + cbn in Hcalls. symmetry in Hcalls. exact (app_singleton_neq _ _ Hcalls).
    + rewrite video_info_callback_run in Hcalls.
      destruct (JSON_parse out) as [[| | | | |]|]; cbn in Hcalls;
        symmetry in Hcalls; exact (app_singleton_neq _ _ Hcalls).
Qed.

(** X7. A video-info request with a truthy [url] that cannot be written
    into the command line (an object with a [toString] member, say) is
    answered 500 with the message of the TypeError, and no process is
    started.  Otherwise [yt-dlp] is run, and the request gets exactly one
    response when [yt-dlp] could not be started, failed, or printed a JSON
    value other than [null]; when it ends normally with output that is no
    JSON, or the JSON [null], the handler ends with an uncaught exception
    and the request gets no response. *)
Theorem video_info_answered_iff
    (E : env) (req_body : list (jsstring * value)) (w : world) :
  let url := lookup_member (lit "url") req_body in
  let outcome := run (video_info E req_body) w in
  falsy url = false ->
  (ToString_ok url = false ->
   outcome = (Ok tt, {| disk := disk w; calls := calls w;
                        sent := sent w ++ [mkResponse 500 (ErrorBody (MessageOf TypeError))] |})) /\
  (ToString_ok url = true ->
   usable_output (child_process E (YtDlpDumpJson url) (disk w)) ->
   fst outcome = Ok tt /\
   calls (snd outcome) = calls w ++ [Exec (YtDlpDumpJson url)] /\
   exists r, sent (snd outcome) = sent w ++ [r]) /\
  (ToString_ok url = true ->
   ~ usable_output (child_process E (YtDlpDumpJson url) (disk w)) ->
   (exists e, fst outcome = Err e) /\
   calls (snd outcome) = calls w ++ [Exec (YtDlpDumpJson url)] /\
   sent (snd outcome) = sent w).
Proof.
  intros url outcome Hurl. subst outcome.
  rewrite (video_info_run E req_body w Hurl). cbv zeta. fold url.
  destruct (ToString_ok url).
  2:{ split; [intros _; reflexivity|]. split; discriminate. }
  split; [discriminate|].
  destruct (child_process E (YtDlpDumpJson url) (disk w)) as [e|[e|] out after];
    cbn [usable_output].
  - split; [|tauto]. intros _ _. split; [reflexivity|].
    split; [reflexivity|eexists; reflexivity].
  - split; [|tauto]. intros _ _. split; [reflexivity|].
    split; [reflexivity|eexists; reflexivity].
  - rewrite video_info_callback_run.
    destruct (JSON_parse out) as [info|e] eqn:Hp.
    + destruct info; try (split;
        [intros _ _; split; [reflexivity|split; [reflexivity|eexists; reflexivity]]
        |intros _ Hno; exfalso; apply Hno; eexists; split; [reflexivity|discriminate]]).
      split.
      * intros _ (info & [= <-] & Hnn). contradiction.
      * intros _ _. split; [eexists; reflexivity|split; reflexivity].
    + split.
      * intros _ (info & Hinfo & _). discriminate.
      * intros _ _. split; [eexists; reflexivity|split; reflexivity].
Qed.

Lemma video_info_answered_iff_witness :
  run (video_info (sample_env stdout_video None (Err (Error [])))
                  [(lit "url", VObj [(lit "toString", VNum 1)])]) fresh_world
  = (Ok tt, {| disk := empty_disk; calls := [];
               sent := [mkResponse 500 (ErrorBody (MessageOf TypeError))] |}) /\
  (exists e, fst (run (video_info (sample_env (lit "null") None (Err (Error [])))
                                  (request_url "https://youtu.be/x")) fresh_world)
             = Err e) /\
  sent (snd (run (video_info (sample_env (lit "null") None (Err (Error [])))
                             (request_url "https://youtu.be/x")) fresh_world))
  = sent fresh_world.
Proof.
  split.
  - apply (video_info_answered_iff (sample_env stdout_video None (Err (Error [])))
             [(lit "url", VObj [(lit "toString", VNum 1)])] fresh_world); reflexivity.
  - destruct (video_info_answered_iff (sample_env (lit "null") None (Err (Error [])))
                (request_url "https://youtu.be/x") fresh_world eq_refl)
      as (_ & _ & H).
    destruct H as (He & _ & Hs).
    + reflexivity.
    + intros (info & Hinfo & Hnn). vm_compute in Hinfo. congruence.
    + split; [exact He|exact Hs].
Defined.

(** X8. When [url] can be written into the command line and [yt-dlp] ends
    normally printing a JSON object, the response is 200 and carries the
    object's [title], [duration], [thumbnail] and [id]; its [author] is the
    object's [uploader] when that is truthy and its [channel] otherwise. *)
Theorem video_info_fields
    (E : env) (req_body : list (jsstring * value)) (w : world)
    (stdout : jsstring) (after : fs) (members : list (jsstring * value)) :
  let url := lookup_member (lit "url") req_body in
  let field key := lookup_member key members in
  falsy url = false -> ToString_ok url = true ->
  child_process E (YtDlpDumpJson url) (disk w) = Exited None stdout after ->
  JSON_parse stdout = Ok (VObj members) ->
  run (video_info E req_body) w
  = (Ok tt,
     {| disk := after; calls := calls w ++ [Exec (YtDlpDumpJson url)];
        sent := sent w ++
          [mkResponse 200
             (VideoInfoBody (field (lit "title")) (field (lit "duration"))
                (field (lit "thumbnail"))
                (if falsy (field (lit "uploader")) then field (lit "channel")
                 else field (lit "uploader"))
                (field (lit "id")))] |}).
Proof.
  intros url field Hurl Hs Hc Hp.
  rewrite (video_info_run E req_body w Hurl). cbv zeta. fold url. rewrite Hs, Hc.
  rewrite video_info_callback_run, Hp. reflexivity.
Qed.

Lemma video_info_fields_witness :
  sent (snd (run (video_info (sample_env stdout_video None (Err (Error [])))
                             (request_url "https://youtu.be/dQw4")) fresh_world))
  = [mkResponse 200
       (VideoInfoBody (Some (VStr (lit "Song"))) (Some (VNum 212))
          (Some (VStr (lit "t.jpg"))) (Some (VStr (lit "Kanal")))
          (Some (VStr (lit "dQw4"))))].
Proof.
  rewrite (video_info_fields (sample_env stdout_video None (Err (Error [])))
             (request_url "https://youtu.be/dQw4") fresh_world stdout_video
             empty_disk
             [(lit "id", VStr (lit "dQw4")); (lit "title", VStr (lit "Song"));
              (lit "duration", VNum 212); (lit "thumbnail", VStr (lit "t.jpg"));
              (lit "uploader", VStr []); (lit "channel", VStr (lit "Kanal"))]).
  - reflexivity.
  - reflexivity.
  - reflexivity.
  - reflexivity.
  - vm_compute. reflexivity.
Defined.

(** ** POST /api/analyze-video, further *)

Lemma findHighlights_run' (E : env) (t : transcription) (w : world) :
  run (findHighlights E t) w = (Ok (highlights_for E t), after_highlights t w).
Proof.
  rewrite findHighlights_run. unfold highlights_for, after_highlights.
  destruct (default [] (t_segments t)); reflexivity.
Qed.

Lemma after_highlights_disk (t : transcription) (w : world) :
  disk (after_highlights t w) = disk w.
Proof. unfold after_highlights. destruct (default [] (t_segments t)); reflexivity. Qed.

Lemma after_highlights_sent (t : transcription) (w : world) :
  sent (after_highlights t w) = sent w.
Proof. unfold after_highlights. destruct (default [] (t_segments t)); reflexivity. Qed.

(** The run of a validated analyze-video request, stage by stage. *)
Lemma analyze_video_run
    (E : env) (now : Z) (req_body : list (jsstring * value)) (w : world) :
  let url := lookup_member (lit "url") req_body in
  let p := audioFile_of now in
  let c := YtDlpExtractAudio p url in
  falsy url = false -> key_missing E = false ->
  run (analyze_video E now req_body) w =
  if negb (ToString_ok url) then run (analyze_catch p TypeError) w else
  match child_process E c (disk w) with
  | SpawnFailed e =>
      run (analyze_catch p e)
          {| disk := disk w; calls := calls w ++ [Exec c]; sent := sent w |}
  | Exited (Some e) _ after =>
      run (analyze_catch p e)
          {| disk := after; calls := calls w ++ [Exec c]; sent := sent w |}
  | Exited None _ after =>
      let w2 := {| disk := after; calls := (calls w ++ [Exec c]) ++ [Transcribe p];
                   sent := sent w |} in
      match transcriptions_create E p after with
      | Err e => run (analyze_catch p e) w2
      | Ok t =>
          let w3 := after_highlights t w2 in
          match lookup_path after p with
          | Some n =>
              match node_kind n with
              | Dir => run (analyze_catch p EISDIR) w3
              | _ =>
                  (Ok tt,
                   {| disk := remove_path p after; calls := calls w3;
                      sent := sent w ++
                              [mkResponse 200
                                 (AnalyzeBody (t_text t) (t_segments t)
                                              (highlights_for E t))] |})
              end
          | None => run (analyze_catch p ENOENT) w3
          end
      end
  end.
Proof.
  intros url p c Hurl Hkey. unfold analyze_video. fold url. fold p. fold c.
  rewrite Hurl, Hkey.
  change (fun error : exn =>
            existsSync p ≫= (fun present : bool =>
              (if present then unlinkSync p else mret tt) ≫= (fun _ : () =>
                respond 500 (ErrorBody (MessageOf error)))))
    with (analyze_catch p).
  rewrite run_try_catch, run_bind, exec_await_run, template_one.
  destruct (ToString_ok url); [cbn [negb]|reflexivity].
  destruct (child_process E c (disk w)) as [e|[e|] out after]; try reflexivity.
  rewrite run_bind, transcribe_run. cbn [disk calls sent].
  destruct (transcriptions_create E p after) as [t|e]; [|reflexivity].
  rewrite run_bind, findHighlights_run', run_bind, unlinkSync_run.
  rewrite after_highlights_disk, after_highlights_sent. cbn [disk sent].
  destruct (lookup_path after p) as [n|]; [|reflexivity].
  destruct (node_kind n); reflexivity.
Qed.

Lemma analyze_catch_general (p : path) (error : exn) (w : world) :
  run (analyze_catch p error) w =
  let answered := {| disk := disk w; calls := calls w;
                     sent := sent w ++ [mkResponse 500 (ErrorBody (MessageOf error))] |} in
  match lookup_path (disk w) p with
  | Some n =>
      match node_kind n with
      | File => (Ok tt, {| disk := remove_path p (disk w); calls := calls w;
                           sent := sent answered |})
      | Dir => (Err EISDIR, w)
      | Broken => (Ok tt, answered)
      end
  | None => (Ok tt, answered)
  end.
Proof.
  unfold analyze_catch. rewrite run_bind, existsSync_run.
  destruct (lookup_path (disk w) p) as [n|] eqn:Hn; [|reflexivity].
  destruct (node_kind n) eqn:Hk; try reflexivity;
    rewrite run_bind, unlinkSync_run, Hn, Hk; reflexivity.
Qed.

Lemma analyze_catch_calls (p : path) (error : exn) (w : world) :
  calls (snd (run (analyze_catch p error) w)) = calls w.
Proof.
  rewrite analyze_catch_general. cbv zeta.
  destruct (lookup_path (disk w) p) as [n|]; [|reflexivity].
  destruct (node_kind n); reflexivity.
Qed.

Lemma after_highlights_calls (t : transcription) (w : world) :
  calls (after_highlights t w)
  = calls w ++ match default [] (t_segments t) with
               | [] => []
               | _ :: _ => [ChatCompletion (request_for t)]
               end.
Proof.
  unfold after_highlights. destruct (default [] (t_segments t)); cbn [calls].
  - rewrite app_nil_r. reflexivity.
  - reflexivity.
Qed.

(** The external calls of a validated analyze-video request. *)
Lemma analyze_video_calls_eq
    (E : env) (now : Z) (req_body : list (jsstring * value)) (w : world) :
  let url := lookup_member (lit "url") req_body in
  falsy url = false -> key_missing E = false ->
  calls (snd (run (analyze_video E now req_body) w))
  = calls w ++ analyze_calls E now url (disk w).
Proof.
  intros url Hurl Hkey. rewrite (analyze_video_run E now req_body w Hurl Hkey).
  fold url. unfold analyze_calls. cbv zeta.
  destruct (ToString_ok url); cbn [negb];
    [|rewrite analyze_catch_calls, app_nil_r; reflexivity].
  destruct (child_process E _ (disk w)) as [e|[e|] out after];
    try (rewrite analyze_catch_calls; reflexivity).
  destruct (transcriptions_create E (audioFile_of now) after) as [t|e].
  - assert (Hall : forall w3,
               calls w3 = calls w ++
                 Exec (YtDlpExtractAudio (audioFile_of now) url)
                 :: Transcribe (audioFile_of now)
                 :: match default [] (t_segments t) with
                    | [] => []
                    | _ :: _ => [ChatCompletion (request_for t)]
                    end ->
               forall e, calls (snd (run (analyze_catch (audioFile_of now) e) w3))
                         = calls w ++
                           Exec (YtDlpExtractAudio (audioFile_of now) url)
                           :: Transcribe (audioFile_of now)
                           :: match default [] (t_segments t) with
                              | [] => []
                              | _ :: _ => [ChatCompletion (request_for t)]
                              end).
    { intros w3 H3 e. rewrite analyze_catch_calls. exact H3. }
    match goal with |- context [after_highlights t ?w2] =>
      assert (H3 : calls (after_highlights t w2)
                   = calls w ++
                     Exec (YtDlpExtractAudio (audioFile_of now) url)
                     :: Transcribe (audioFile_of now)
                     :: match default [] (t_segments t) with
                        | [] => []
                        | _ :: _ => [ChatCompletion (request_for t)]
                        end)
    end.
    { rewrite after_highlights_calls. cbn [calls].
      rewrite <- !app_assoc. reflexivity. }
    destruct (lookup_path after (audioFile_of now)) as [n|]; [|apply Hall; exact H3].
    destruct (node_kind n); [exact H3|apply Hall; exact H3|exact H3].
  - rewrite analyze_catch_calls. cbn [calls]. rewrite <- app_assoc. reflexivity.
Qed.

(** X9. The analyze-video handler checks [url], then the API key, before
    anything else: without a truthy [url] it answers 400 "URL fehlt", with
    one but without a key 500 "GROQ_API_KEY nicht konfiguriert", in both
    cases leaving the world otherwise untouched.  It issues no external call
    exactly for these requests and for those whose [url] cannot be written
    into the command line. *)
Theorem analyze_video_gate
    (E : env) (now : Z) (req_body : list (jsstring * value)) (w : world) :
  let url := lookup_member (lit "url") req_body in
  let answered status text :=
    (Ok tt, {| disk := disk w; calls := calls w;
               sent := sent w ++ [mkResponse status (ErrorBody (Text text))] |}) in
  (falsy url = true ->
   run (analyze_video E now req_body) w = answered 400 (lit "URL fehlt")) /\
  (falsy url = false -> key_missing E = true ->
   run (analyze_video E now req_body) w
   = answered 500 (lit "GROQ_API_KEY nicht konfiguriert")) /\
  (calls (snd (run (analyze_video E now req_body) w)) = calls w <->
   falsy url = true \/ key_missing E = true \/ ToString_ok url = false).
Proof.
  intros url answered. subst answered.
  destruct (falsy url) eqn:Hurl.
  - unfold analyze_video. fold url. rewrite Hurl.
    split; [reflexivity|]. split; [discriminate|]. split; [auto|reflexivity].
  - split; [discriminate|].
    destruct (key_missing E) eqn:Hkey.
    + unfold analyze_video. fold url. rewrite Hurl, Hkey.
      split; [reflexivity|]. split; [auto|reflexivity].
    + split; [discriminate|].
      rewrite (analyze_video_calls_eq E now req_body w Hurl Hkey).
      unfold analyze_calls. cbv zeta. fold url.
      destruct (ToString_ok url).
      * split; [|intros [H|[H|H]]; discriminate].
        intros H. exfalso.
        apply (f_equal (@length call)) in H. rewrite length_app in H.
        cbn [length] in H. lia.
      * rewrite app_nil_r. split; [auto|reflexivity].
Qed.

(** X10. The stages of analyze-video follow one another: a validated
    request whose [url] cannot be written into the command line issues no
    external call; any other issues the extraction, then the transcription
    only if [yt-dlp] ended without error, then the chat completion only if
    the transcription succeeded with at least one segment; nothing else is
    called, whatever fails afterwards. *)
Theorem analyze_video_call_sequence
    (E : env) (now : Z) (req_body : list (jsstring * value)) (w : world) :
  let url := lookup_member (lit "url") req_body in
  falsy url = false -> key_missing E = false ->
  calls (snd (run (analyze_video E now req_body) w))
  = calls w ++ analyze_calls E now url (disk w).
Proof. exact (analyze_video_calls_eq E now req_body w). Qed.

Lemma analyze_video_call_sequence_witness :
  calls (snd (run (analyze_video env_chat_down 1700000000000
                                 (request_url "https://youtu.be/x")) fresh_world))
  = [Exec (YtDlpExtractAudio (audioFile_of 1700000000000)
                             (Some (VStr (lit "https://youtu.be/x"))));
     Transcribe (audioFile_of 1700000000000);
     ChatCompletion (request_for sample_transcription)] /\
  calls (snd (run (analyze_video env_chat_down 1700000000000
                                 [(lit "url", VObj [(lit "toString", VNum 1)])])
                  fresh_world))
  = [].
Proof.
  split.
  - rewrite (analyze_video_call_sequence env_chat_down 1700000000000
               (request_url "https://youtu.be/x") fresh_world);
      reflexivity.
  - rewrite (analyze_video_call_sequence env_chat_down 1700000000000
               [(lit "url", VObj [(lit "toString", VNum 1)])] fresh_world);
      reflexivity.
Defined.

Lemma highlights_for_chat_down (E : env) (t : transcription) (e : exn) :
  chat_completions_create E (request_for t) = Err e -> highlights_for E t = [].
Proof.
  intros H. unfold highlights_for. rewrite H.
  destruct (default [] (t_segments t)); reflexivity.
Qed.

(** X11. Highlights are optional: once [yt-dlp], started for a [url] that
    can be written into the command line, has written the audio file and
    the transcription has succeeded, the request is answered 200 with the
    transcript text and segments, whatever the chat completion does; when
    the chat completion fails the highlights are empty.  The handler leaves
    the disk as [yt-dlp] left it, minus the audio file. *)
Theorem analyze_video_succeeds_without_chat
    (E : env) (now : Z) (req_body : list (jsstring * value)) (w : world)
    (stdout : jsstring) (after : fs) (n : node) (t : transcription) :
  let url := lookup_member (lit "url") req_body in
  let p := audioFile_of now in
  falsy url = false -> key_missing E = false -> ToString_ok url = true ->
  child_process E (YtDlpExtractAudio p url) (disk w) = Exited None stdout after ->
  lookup_path after p = Some n -> node_kind n = File ->
  transcriptions_create E p after = Ok t ->
  exists hl w',
    run (analyze_video E now req_body) w = (Ok tt, w') /\
    sent w' = sent w ++ [mkResponse 200 (AnalyzeBody (t_text t) (t_segments t) hl)] /\
    disk w' = remove_path p after /\
    hl = highlights_for E t /\
    (forall e, chat_completions_create E (request_for t) = Err e -> hl = []).
Proof.
  intros url p Hurl Hkey Hs Hc Hn Hk Ht.
  rewrite (analyze_video_run E now req_body w Hurl Hkey). fold url. fold p.
  rewrite Hs, Hc. cbv zeta. cbn [negb]. rewrite Ht, Hn, Hk.
  eexists _, _. split; [reflexivity|]. cbn [sent disk].
  split; [reflexivity|]. split; [reflexivity|]. split; [reflexivity|].
  intros e He. eapply highlights_for_chat_down. exact He.
Qed.

Lemma analyze_video_succeeds_without_chat_witness :
  exists hl w',
    run (analyze_video env_chat_down 1700000000000 (request_url "https://youtu.be/x"))
        fresh_world = (Ok tt, w') /\
    sent w' = sent fresh_world ++
              [mkResponse 200 (AnalyzeBody (t_text sample_transcription)
                                           (t_segments sample_transcription) hl)] /\
    disk w' = remove_path (audioFile_of 1700000000000)
                          (write_file (audioFile_of 1700000000000) empty_disk) /\
    hl = highlights_for env_chat_down sample_transcription /\
    (forall e, chat_completions_create env_chat_down (request_for sample_transcription)
               = Err e -> hl = []).
Proof.
  apply (analyze_video_succeeds_without_chat env_chat_down 1700000000000
           (request_url "https://youtu.be/x") fresh_world [] _ sample_node
           sample_transcription); reflexivity.
Defined.

(** X12. A failure before the highlights is answered 500 with the message
    of the error that occurred: the TypeError of the command line when [url]
    cannot be written into it, and otherwise the error of the extraction
    (not started, or failed) or of the transcription (provided the audio
    path names a regular file or nothing, so that the clean-up succeeds). *)
Theorem analyze_video_reports_error
    (E : env) (now : Z) (req_body : list (jsstring * value)) (w : world) (e : exn) :
  let url := lookup_member (lit "url") req_body in
  let p := audioFile_of now in
  let o := child_process E (YtDlpExtractAudio p url) (disk w) in
  falsy url = false -> key_missing E = false ->
  regular_or_absent (disk w) p ->
  (forall error stdout after, o = Exited error stdout after ->
                              regular_or_absent after p) ->
  (ToString_ok url = false /\ e = TypeError) \/
  (ToString_ok url = true /\
   (o = SpawnFailed e \/
    (exists stdout after, o = Exited (Some e) stdout after) \/
    (exists stdout after, o = Exited None stdout after /\
                          transcriptions_create E p after = Err e))) ->
  exists w',
    run (analyze_video E now req_body) w = (Ok tt, w') /\
    sent w' = sent w ++ [mkResponse 500 (ErrorBody (MessageOf e))].
Proof.
  intros url p o Hurl Hkey Hreg Hchild H. subst o.
  rewrite (analyze_video_run E now req_body w Hurl Hkey). fold url. fold p.
  cbv zeta. unfold analyze_catch.
  destruct H as [[Hs ->]|[Hs H]]; rewrite Hs; cbn [negb].
  { rewrite analyze_catch_run by exact Hreg. eexists. split; reflexivity. }
  destruct H as [H|[(out & after & H)|(out & after & H & Ht)]]; rewrite H.
  - rewrite analyze_catch_run by exact Hreg. eexists. split; reflexivity.
  - rewrite analyze_catch_run by (eapply Hchild; exact H).
    eexists. split; reflexivity.
  - rewrite Ht. rewrite analyze_catch_run by (eapply Hchild; exact H).
    eexists. split; reflexivity.
Qed.

Lemma analyze_video_reports_error_witness :
  (exists w',
    run (analyze_video (sample_env [] (Some (Error (lit "Command failed"))) (Err (Error [])))
                       1700000000000 (request_url "https://youtu.be/x")) fresh_world
    = (Ok tt, w') /\
    sent w' = sent fresh_world
              ++ [mkResponse 500 (ErrorBody (MessageOf (Error (lit "Command failed"))))]) /\
  (exists w',
    run (analyze_video env_chat_down 1700000000000
                       [(lit "url", VObj [(lit "toString", VNum 1)])]) fresh_world
    = (Ok tt, w') /\
    sent w' = sent fresh_world ++ [mkResponse 500 (ErrorBody (MessageOf TypeError))]).
Proof.
  split.
  - apply (analyze_video_reports_error
             (sample_env [] (Some (Error (lit "Command failed"))) (Err (Error [])))
             1700000000000 (request_url "https://youtu.be/x") fresh_world).
    + reflexivity.
    + reflexivity.
    + exact I.
    + intros error stdout after H. injection H as _ _ <-. reflexivity.
    + right. split; [reflexivity|]. right. left. eexists _, _. reflexivity.
  - apply (analyze_video_reports_error env_chat_down 1700000000000
             [(lit "url", VObj [(lit "toString", VNum 1)])] fresh_world).
    + reflexivity.
    + reflexivity.
    + exact I.
    + intros error stdout after H. injection H as _ _ <-. reflexivity.
    + left. split; reflexivity.
Defined.

(** ** POST /api/create-clip, further *)

(** X13. A validated create-clip request with a usable name whose [url],
    [startTime] and [duration] can be converted to text is always answered,
    after the pipeline has been started once, and the handler leaves the
    disk exactly as the pipeline left it (a partial output file is not
    removed).  The answer is 200, with the download URL "/downloads/"
    followed by the file name and the size of the file on disk, exactly when
    the pipeline ended without error and the output file exists; in every
    other case it is 500 with the fixed text "Clip-Erstellung
    fehlgeschlagen", whatever the error was. *)
Theorem create_clip_outcome
    (E : env) (now : Z) (req_body : list (jsstring * value)) (w : world) (name : jsstring) :
  let url := lookup_member (lit "url") req_body in
  let startTime := lookup_member (lit "startTime") req_body in
  let duration := lookup_member (lit "duration") req_body in
  let clipName := lookup_member (lit "clipName") req_body in
  let outputFile := outputFile_of name now in
  let outputPath := (DOWNLOADS_DIR, outputFile) in
  let c := ClipPipeline url startTime duration outputPath in
  let o := child_process E c (disk w) in
  falsy url = false -> is_undefined startTime = false -> falsy duration = false ->
  safeName_of clipName = Ok name ->
  ToString_ok url = true -> ToString_ok startTime = true -> ToString_ok duration = true ->
  exists w',
    run (create_clip E now req_body) w = (Ok tt, w') /\
    disk w' = disk_after o (disk w) /\
    calls w' = calls w ++ [Exec c] /\
    ((exists n, clip_written o outputPath n /\
                sent w' = sent w ++
                          [mkResponse 200
                             (ClipBody (lit "/downloads/" ++ outputFile) outputFile
                                       (node_size n))]) \/
     ((forall n, ~ clip_written o outputPath n) /\
      sent w' = sent w ++ [mkResponse 500 clip_failed])).
Proof.
  intros url startTime duration clipName outputFile outputPath c o
         Hurl Hst Hdur Hname Hs0 Hs1 Hs2.
  rewrite (create_clip_run E now req_body w Hurl Hst Hdur).
  fold url. fold startTime. fold duration. fold clipName.
  rewrite Hname. cbv zeta. rewrite Hs0, Hs1, Hs2. cbn [andb].
  fold outputFile. fold outputPath. fold c. fold o.
  destruct o as [e|[e|] out after] eqn:Ho.
  - eexists. split; [reflexivity|]. split; [reflexivity|]. split; [reflexivity|]. right.
    split; [|reflexivity]. intros n (so & a & H & _). discriminate.
  - eexists. split; [reflexivity|]. split; [reflexivity|]. split; [reflexivity|]. right.
    split; [|reflexivity]. intros n (so & a & H & _). discriminate.
  - destruct (lookup_path after outputPath) as [n|] eqn:Hn.
    + destruct (node_kind n) eqn:Hk.
      * eexists. split; [reflexivity|]. split; [reflexivity|]. split; [reflexivity|].
        left. exists n. split; [|reflexivity].
        exists out, after. repeat split; [exact Hn|congruence].
      * eexists. split; [reflexivity|]. split; [reflexivity|]. split; [reflexivity|].
        left. exists n. split; [|reflexivity].
        exists out, after. repeat split; [exact Hn|congruence].
      * eexists. split; [reflexivity|]. split; [reflexivity|]. split; [reflexivity|].
        right. split; [|reflexivity].
        intros n' (so & a & H & Hl & Hb). injection H as _ <-.
        rewrite Hn in Hl. injection Hl as <-. contradiction.
    + eexists. split; [reflexivity|]. split; [reflexivity|]. split; [reflexivity|].
      right. split; [|reflexivity].
      intros n' (so & a & H & Hl & _). injection H as _ <-. congruence.
Qed.

Lemma create_clip_outcome_witness :
  exists w',
    run (create_clip env_prose 1700000000000 named_request) fresh_world = (Ok tt, w') /\
    sent w' = [mkResponse 200
                 (ClipBody (lit "/downloads/Mein_Clip__1_-1700000000000.mp4")
                           (lit "Mein_Clip__1_-1700000000000.mp4") 1024)].
Proof.
  destruct (create_clip_outcome env_prose 1700000000000 named_request fresh_world
              (lit "Mein_Clip__1_"))
    as (w' & Hrun & _ & _ & [(n & _ & Hs)|[_ Hs]]); try reflexivity.
  - exists w'. split; [exact Hrun|].
    vm_compute in Hrun. injection Hrun as <-. vm_compute. reflexivity.
  - exfalso. vm_compute in Hrun. injection Hrun as <-. vm_compute in Hs. discriminate.
Defined.

(** ** The output file name *)

(** X14. For one clip name, two requests get the same output file name exactly
    when they read the same millisecond from the clock: different
    timestamps never collide, equal ones always do. *)
Theorem outputFile_same_iff (safeName : jsstring) (t1 t2 : Z) :
  outputFile_of safeName t1 = outputFile_of safeName t2 <-> t1 = t2.
Proof.
  split; [|intros ->; reflexivity].
  unfold outputFile_of. intros H.
  apply app_inv_head in H. apply app_inv_head in H. apply app_inv_tail in H.
  apply Number_toString_inj. exact H.
Qed.

Lemma safeName_of_allowed (clipName : option value) (name : jsstring) :
  safeName_of clipName = Ok name -> Forall (fun c => allowed c = true) name.
Proof.
  unfold safeName_of.
  destruct (or_else clipName (Some (VStr (lit "clip")))) as [[| | |s| |]|];
    try discriminate.
  intros [= <-]. unfold substring. apply Forall_take, Forall_drop, sanitize_allowed.
Qed.

(** X15. The output file name is a plain file name: whatever [clipName] and
    the clock are, it consists of letters, digits, hyphens, underscores and
    full stops only, so it holds no path separator and the file stays in the
    downloads directory. *)
Theorem outputFile_plain_name (clipName : option value) (name : jsstring) (now : Z) :
  safeName_of clipName = Ok name ->
  Forall filename_char (outputFile_of name now) /\
  (47%N ∉ outputFile_of name now) /\ (92%N ∉ outputFile_of name now).
Proof.
  intros Hname.
  assert (H : Forall filename_char (outputFile_of name now)).
  { unfold outputFile_of. repeat apply Forall_app_2.
    - eapply Forall_impl; [eapply safeName_of_allowed; exact Hname|].
      intros c Hc. left. exact Hc.
    - repeat constructor.
    - eapply Forall_impl; [apply Number_toString_chars|].
      intros c [ Hc | -> ]; left; [|reflexivity].
      unfold allowed. unfold is_digit in Hc. rewrite Hc.
      rewrite !orb_true_r. reflexivity.
    - constructor; [right; reflexivity|]. repeat constructor. }
  split; [exact H|].
  rewrite Forall_forall in H.
  split; intros Hin; destruct (H _ Hin) as [Hc|Hc]; discriminate.
Qed.

Lemma outputFile_plain_name_witness :
  Forall filename_char
         (outputFile_of (lit "______etc_passwd") 1700000000000) /\
  (47%N ∉ outputFile_of (lit "______etc_passwd") 1700000000000) /\
  (92%N ∉ outputFile_of (lit "______etc_passwd") 1700000000000).
Proof.
  apply (outputFile_plain_name (Some (VStr (lit "../../etc/passwd")))).
  vm_compute. reflexivity.
Defined.

(** X16. A clip name passes through the sanitiser unchanged exactly when it is
    not empty, at most 50 characters long and written in [a-zA-Z0-9-_]
    only. *)
Theorem safeName_unchanged_iff (s : jsstring) :
  safeName_of (Some (VStr s)) = Ok s <->
  s <> [] /\ Forall (fun c => allowed c = true) s /\ (length s <= 50)%nat.
Proof.
  destruct s as [|c s].
  - split; [intros H; vm_compute in H; discriminate|intros [H _]; contradiction].
  - change (safeName_of (Some (VStr (c :: s))))
      with (Ok (A := jsstring) (substring 0 50 (sanitize (c :: s)))).
    unfold substring. rewrite drop_0.
    split.
    + intros H. assert (H' : take (50 - 0) (sanitize (c :: s)) = c :: s) by congruence.
      clear H. split; [discriminate|]. split.
      * rewrite <- H'. apply Forall_take, sanitize_allowed.
      * rewrite <- H'. rewrite length_take. lia.
    + intros (_ & Hall & Hlen). f_equal.
      rewrite take_ge by (unfold sanitize; rewrite length_map; exact Hlen).
      unfold sanitize. rewrite <- (map_id (c :: s)) at 2.
      apply map_ext_Forall. eapply Forall_impl; [exact Hall|].
      intros x Hx. cbn beta. rewrite Hx. reflexivity.
Qed.

(** ** One response per request *)

Lemma one_response_respond (status : Z) (b : body) (w0 w : world) :
  sent w = sent w0 ->
  one_response_or_exception w0 (run (respond status b) w).
Proof. intros H. cbn. rewrite H. eexists; reflexivity. Qed.

Lemma one_response_analyze_catch (p : path) (error : exn) (w0 w : world) :
  sent w = sent w0 ->
  one_response_or_exception w0 (run (analyze_catch p error) w).
Proof.
  intros H. rewrite analyze_catch_general. cbv zeta.
  unfold one_response_or_exception.
  destruct (lookup_path (disk w) p) as [n|]; [destruct (node_kind n)|];
    cbn [fst snd sent]; rewrite ?H; try (eexists; reflexivity); reflexivity.
Qed.

(** X17. No handler answers a request twice.  Each of the three POST handlers,
    for every request body, environment and state of the disk, has sent
    exactly one response when it ends normally, and none when it ends with
    an exception that nothing catches. *)
Theorem handlers_answer_once
    (E : env) (now : Z) (req_body : list (jsstring * value)) (w : world) :
  one_response_or_exception w (run (video_info E req_body) w) /\
  one_response_or_exception w (run (analyze_video E now req_body) w) /\
  one_response_or_exception w (run (create_clip E now req_body) w).
Proof.
  split; [|split].
  - destruct (falsy (lookup_member (lit "url") req_body)) eqn:Hurl.
    + unfold video_info. rewrite Hurl. apply one_response_respond. reflexivity.
    + rewrite (video_info_run E req_body w Hurl). cbv zeta.
      destruct (ToString_ok _); [|apply one_response_respond; reflexivity].
      destruct (child_process E _ (disk w)) as [e|[e|] out after];
        try (apply one_response_respond; reflexivity).
      rewrite video_info_callback_run.
      destruct (JSON_parse out) as [[| | | | |]|e]; cbn;
        try reflexivity; eexists; reflexivity.
  - destruct (falsy (lookup_member (lit "url") req_body)) eqn:Hurl.
    { unfold analyze_video. rewrite Hurl. apply one_response_respond. reflexivity. }
    destruct (key_missing E) eqn:Hkey.
    { unfold analyze_video. rewrite Hurl, Hkey. apply one_response_respond. reflexivity. }
    rewrite (analyze_video_run E now req_body w Hurl Hkey). cbv zeta.
    destruct (ToString_ok _); cbn [negb];
      [|apply one_response_analyze_catch; reflexivity].
    destruct (child_process E _ (disk w)) as [e|[e|] out after];
      try (apply one_response_analyze_catch; reflexivity).
    destruct (transcriptions_create E _ after) as [t|e];
      [|apply one_response_analyze_catch; reflexivity].
    destruct (lookup_path after (audioFile_of now)) as [n|];
      [destruct (node_kind n)|];
      try (apply one_response_analyze_catch; rewrite after_highlights_sent; reflexivity);
      cbn; eexists; reflexivity.
  - destruct (falsy (lookup_member (lit "url") req_body)
              || is_undefined (lookup_member (lit "startTime") req_body)
              || falsy (lookup_member (lit "duration") req_body)) eqn:Hv.
    { unfold create_clip. rewrite Hv. apply one_response_respond. reflexivity. }
    apply orb_false_elim in Hv. destruct Hv as [Hv Hdur].
    apply orb_false_elim in Hv. destruct Hv as [Hurl Hst].
    rewrite (create_clip_run E now req_body w Hurl Hst Hdur). cbv zeta.
    unfold one_response_or_exception.
    destruct (safeName_of _) as [name|e]; [|reflexivity].
    destruct (ToString_ok _ && ToString_ok _); [|reflexivity].
    destruct (ToString_ok _); [|eexists; reflexivity].
    destruct (child_process E _ (disk w)) as [e|[e|] out after];
      try (eexists; reflexivity).
    destruct (lookup_path after _) as [n|]; [destruct (node_kind n)|];
      eexists; reflexivity.
Qed.

(** ** Start-up *)

(** X18. Start-up ends without an exception and leaves both working
    directories in place (each being absent or a directory beforehand): a
    directory that was missing is created empty, one that existed keeps
    every entry, nothing else is touched, and running the same lines again
    changes nothing. *)
Theorem startup_creates_missing_dirs (w : world) :
  exists w',
    run startup w = (Ok tt, w') /\
    (forall d, entries d (disk w') = Some (default ∅ (entries d (disk w)))) /\
    (forall p, lookup_path (disk w') p = lookup_path (disk w) p) /\
    calls w' = calls w /\ sent w' = sent w /\
    run startup w' = (Ok tt, w').
Proof.
  destruct w as [[[dl|] [tp|]] c s]; eexists;
    (split; [reflexivity|]);
    (split; [intros []; reflexivity|]);
    (split; [intros [[] g]; unfold lookup_path; cbn; rewrite ?lookup_empty; reflexivity|]);
    repeat split.
Qed.

(** ** The cleanup timer, further *)

Lemma sweep_all_lookup (t : Q) (m : gmap jsstring node) (g : jsstring) :
  sweep_all t m !! g =
  match m !! g with
  | Some n => if swept t n then None else Some n
  | None => None
  end.
Proof.
  unfold sweep_all. rewrite swept_map_lookup.
  destruct (m !! g) as [n|] eqn:En; [|reflexivity].
  rewrite (bool_decide_eq_true_2 _ (listing_complete m g n En)). reflexivity.
Qed.

Lemma sweep_run (now : Z) (w : world) :
  run (sweep now) w =
  (Ok tt, {| disk := swept_disk (inject_Z (now - 3600000)) (disk w);
             calls := calls w; sent := sent w |}).
Proof.
  unfold sweep. cbn [forEach]. rewrite run_bind, sweep_dir_run.
  destruct w as [[dl tp] c s]. cbn [entries disk downloads temp calls sent].
  destruct dl as [m|]; rewrite run_bind, sweep_dir_run;
    cbn [entries disk downloads temp calls sent set_entries];
    destruct tp as [m'|]; reflexivity.
Qed.

Lemma swept_max (a b c : Z) (n : node) :
  swept (inject_Z (Z.max a b - c)) n
  = swept (inject_Z (a - c)) n || swept (inject_Z (b - c)) n.
Proof.
  apply Bool.eq_iff_eq_true. rewrite orb_true_iff, !swept_true.
  assert (Hmono : forall x y : Z, x <= y ->
            (mtimeMs n < inject_Z (x - c))%Q -> (mtimeMs n < inject_Z (y - c))%Q).
  { intros x y Hxy H. eapply Qlt_le_trans; [exact H|].
    rewrite <- Zle_Qle. lia. }
  destruct (Z.max_spec a b) as [[Hab ->]|[Hab ->]].
  - split; [intros H; right; exact H|].
    intros [[Hk H]|H]; [|exact H]. split; [exact Hk|]. apply (Hmono a b); [lia|exact H].
  - split; [intros H; left; exact H|].
    intros [H|[Hk H]]; [exact H|]. split; [exact Hk|]. apply (Hmono b a); [lia|exact H].
Qed.

Lemma sweep_all_twice (a b c : Z) (m : gmap jsstring node) :
  sweep_all (inject_Z (b - c)) (sweep_all (inject_Z (a - c)) m)
  = sweep_all (inject_Z (Z.max a b - c)) m.
Proof.
  apply map_eq. intros g. rewrite !sweep_all_lookup.
  destruct (m !! g) as [n|]; [|reflexivity].
  rewrite swept_max.
  destruct (swept (inject_Z (a - c)) n); reflexivity.
Qed.

(** X19. The cleanup timer only removes.  A firing touches neither the
    external calls nor the responses, creates no directory and removes
    none, and every entry found afterwards was there before, unchanged. *)
Theorem sweep_only_removes (now : Z) (w : world) :
  exists w',
    run (sweep now) w = (Ok tt, w') /\
    calls w' = calls w /\ sent w' = sent w /\
    (forall d, is_Some (entries d (disk w')) <-> is_Some (entries d (disk w))) /\
    (forall p n, lookup_path (disk w') p = Some n -> lookup_path (disk w) p = Some n).
Proof.
  eexists. split; [apply sweep_run|]. cbn [calls sent disk].
  split; [reflexivity|]. split; [reflexivity|]. split.
  - intros []; cbn; rewrite fmap_is_Some; reflexivity.
  - intros [d g] n. unfold lookup_path. cbn [fst snd].
    destruct d; cbn [entries swept_disk downloads temp].
    + destruct (downloads (disk w)) as [m|]; cbn; [|discriminate].
      rewrite sweep_all_lookup. destruct (m !! g) as [n'|]; [|discriminate].
      destruct (swept _ n'); [discriminate|]. intros H; exact H.
    + destruct (temp (disk w)) as [m|]; cbn; [|discriminate].
      rewrite sweep_all_lookup. destruct (m !! g) as [n'|]; [|discriminate].
      destruct (swept _ n'); [discriminate|]. intros H; exact H.
Qed.

(** X20. Two firings of the cleanup timer in a row, at times [t1] and [t2] in
    either order, leave exactly what one firing at the later of the two
    times leaves; in particular a second firing at the same or an earlier
    time changes nothing. *)
Theorem sweep_twice (t1 t2 : Z) (w : world) :
  run (sweep t1 ≫= fun _ => sweep t2) w = run (sweep (Z.max t1 t2)) w.
Proof.
  rewrite run_bind, !sweep_run. cbn [disk calls sent].
  f_equal. f_equal. unfold swept_disk. cbn [downloads temp].
  destruct (disk w) as [dl tp]. cbn [downloads temp].
  f_equal; [destruct dl as [m|]|destruct tp as [m|]]; cbn; try reflexivity;
    f_equal; apply sweep_all_twice.
Qed.

(** ** Ties in the ranking *)

Lemma with_score_cons (q : Q) (x : value) (l : list value) :
  with_score q (x :: l)
  = if Qeq_bool (score_of x) q then x :: with_score q l else with_score q l.
Proof. reflexivity. Qed.

Lemma insert_sorted_with_score (E : env) (x : value) (q : Q) :
  scored x ->
  forall l l', Forall scored l ->
    insert_sorted (by_score E) x l = Ok l' ->
    with_score q l' = with_score q (x :: l).
Proof.
  intros Hx l. induction l as [|y l IH]; intros l' Hl; cbn [insert_sorted].
  - intros [= <-]. reflexivity.
  - inversion Hl as [|? ? Hy Hl']; subst.
    rewrite (by_score_scored E x y Hx Hy), bind_Ok.
    destruct (is_positive (Finite (score_of y - score_of x))) eqn:Hpos.
    + destruct (insert_sorted (by_score E) x l) as [r|e]; [rewrite bind_Ok|discriminate].
      intros [= <-].
      rewrite with_score_cons, (IH r Hl' eq_refl), !with_score_cons.
      destruct (Qeq_bool (score_of y) q) eqn:Ey; [|reflexivity].
      destruct (Qeq_bool (score_of x) q) eqn:Ex; [|reflexivity].
      exfalso. apply Qeq_bool_iff in Ey, Ex.
      apply (is_positive_sub (score_of x) (score_of y)) in Hpos.
      rewrite Ey, Ex in Hpos. exact (Qlt_irrefl _ Hpos).
    + intros [= <-]. reflexivity.
Qed.

Lemma Array_sort_with_score (E : env) (q : Q) (l : list value) :
  Forall scored l ->
  forall l', Array_sort (by_score E) l = Ok l' -> with_score q l' = with_score q l.
Proof.
  induction l as [|x l IH]; intros Hl l'; cbn [Array_sort].
  - intros [= <-]. reflexivity.
  - inversion Hl as [|? ? Hx Hl']; subst.
    destruct (Array_sort (by_score E) l) as [s|e] eqn:Hs; [rewrite bind_Ok|discriminate].
    intros Hins.
    assert (HPs : Forall scored s).
    { apply Array_sort_perm in Hs. rewrite List.Forall_forall in *. intros z Hz.
      apply Hl'. eapply Permutation_in; [symmetry; exact Hs|exact Hz]. }
    rewrite (insert_sorted_with_score E x q Hx s l' HPs Hins), !with_score_cons.
    rewrite (IH Hl' s eq_refl). reflexivity.
Qed.

(** X21. Ties keep the order of the reply: under the conditions of the
    ranking (an array of objects with a numeric [score]), the returned
    highlights that share any one score stand in the order in which the
    reply listed them. *)
Theorem findHighlights_ties_keep_order
    (E : env) (t : transcription) (w : world)
    (completion : value) (response jsonMatch : jsstring) (items : list value) :
  default [] (t_segments t) <> [] ->
  chat_completions_create E (request_for t) = Ok completion ->
  response_of completion = Ok response ->
  match_array_pattern response = Some jsonMatch ->
  JSON_parse jsonMatch = Ok (VArr items) ->
  Forall scored items ->
  exists sorted,
    fst (run (findHighlights E t) w) = Ok sorted /\
    forall q, with_score q sorted = with_score q items.
Proof.
  intros Hne Hc Hr Hm Hp Hs.
  destruct (Array_sort_scored E items Hs) as (sorted & Hsort & _ & _).
  exists sorted. split.
  - rewrite (findHighlights_of_response E t w completion response Hne Hc Hr).
    rewrite Hm, Hp, bind_Ok. cbn [sort_highlights]. rewrite Hsort. reflexivity.
  - intros q. exact (Array_sort_with_score E q items Hs sorted Hsort).
Qed.

Lemma findHighlights_ties_keep_order_witness :
  exists sorted,
    fst (run (findHighlights (sample_env [] None (Ok (completion_with reply_tie)))
                             sample_transcription) fresh_world) = Ok sorted /\
    with_score 50 sorted = [highlight_A; highlight_C].
Proof.
  destruct (findHighlights_ties_keep_order
              (sample_env [] None (Ok (completion_with reply_tie)))
              sample_transcription fresh_world
              (completion_with reply_tie) reply_tie reply_tie
              [highlight_A; highlight_B; highlight_C])
    as (sorted & Hrun & Hq).
  - discriminate.
  - reflexivity.
  - vm_compute. reflexivity.
  - vm_compute. reflexivity.
  - vm_compute. reflexivity.
  - repeat constructor; apply highlight_scored.
  - exists sorted. split; [exact Hrun|]. rewrite Hq. vm_compute. reflexivity.
Defined.

(** ** What the bracket pattern hands to the parser *)

Lemma parse_value_bracket (fuel : nat) (r : jsstring) :
  parse_value (S fuel) (91%N :: r) =
  match skip_ws r with
  | c' :: r' =>
      if (c' =? 93)%N then Parsed (VArr []) r'
      else parsed_map VArr (parse_elements fuel (c' :: r'))
  | [] => Unexpected
  end.
Proof. reflexivity. Qed.

(** X22. Whatever the bracket pattern matched, if [JSON.parse] accepts it the
    value is an array: the [sort] of line 197 is never called on a value
    that lacks the method. *)
Theorem matched_text_parses_to_array (response jsonMatch : jsstring) (v : value) :
  match_array_pattern response = Some jsonMatch ->
  JSON_parse jsonMatch = Ok v ->
  exists items, v = VArr items.
Proof.
  intros Hm Hp.
  apply match_array_pattern_Some in Hm. destruct Hm as (pre & inner & post & _ & -> & _).
  unfold JSON_parse in Hp.
  replace (2 * length (91%N :: (inner ++ [93%N])) + 2)%nat
    with (S (2 * length (91%N :: (inner ++ [93%N])) + 1)) in Hp by lia.
  rewrite parse_value_bracket in Hp.
  destruct (skip_ws (inner ++ [93%N])) as [|c' r']; [discriminate|].
  destruct (c' =? 93)%N.
  - destruct (skip_ws r'); [|discriminate]. injection Hp as <-. eexists; reflexivity.
  - destruct (parse_elements _ (c' :: r')) as [items rest| |]; cbn [parsed_map] in Hp;
      try discriminate.
    destruct (skip_ws rest); [|discriminate]. injection Hp as <-. eexists; reflexivity.
Qed.

Lemma matched_text_parses_to_array_witness :
  match_array_pattern (lit "Clips: [1, [2]]") = Some (lit "[1, [2]]") /\
  JSON_parse (lit "[1, [2]]") = Ok (VArr [VNum 1; VArr [VNum 2]]) /\
  exists items, VArr [VNum 1; VArr [VNum 2]] = VArr items.
Proof.
  split; [vm_compute; reflexivity|]. split; [vm_compute; reflexivity|].
  apply (matched_text_parses_to_array (lit "Clips: [1, [2]]") (lit "[1, [2]]")).
  - vm_compute. reflexivity.
  - vm_compute. reflexivity.
Defined.

(** ** Requests that stay unanswered *)

Lemma safeName_of_Ok (clipName : option value) (name : jsstring) :
  safeName_of clipName = Ok name -> name_or_nothing clipName.
Proof.
  unfold safeName_of, or_else, name_or_nothing.
  destruct (falsy clipName) eqn:Hf; [left; reflexivity|].
  destruct clipName as [[| | |s| |]|]; try discriminate.
  intros _. right. eexists; reflexivity.
Qed.

(** X23. A create-clip request stays unanswered exactly when it passes
    validation and either its [clipName] is truthy and not a string (a
    number, [true], an array, an object), so that [replace] is no function,
    or its [startTime] or [duration] cannot be converted to text for the log
    line of line 223.  Both happen before the [try] block: the handler ends
    with a TypeError, no process is started and nothing is sent.  Every
    other request ends normally. *)
Theorem create_clip_unanswered_iff
    (E : env) (now : Z) (req_body : list (jsstring * value)) (w : world) :
  let url := lookup_member (lit "url") req_body in
  let startTime := lookup_member (lit "startTime") req_body in
  let duration := lookup_member (lit "duration") req_body in
  let clipName := lookup_member (lit "clipName") req_body in
  let thrown_before_try :=
    falsy url = false /\ is_undefined startTime = false /\ falsy duration = false /\
    (~ name_or_nothing clipName \/
     ToString_ok startTime = false \/ ToString_ok duration = false) in
  ((exists e, fst (run (create_clip E now req_body) w) = Err e) <-> thrown_before_try) /\
  (thrown_before_try -> run (create_clip E now req_body) w = (Err TypeError, w)).
Proof.
  intros url startTime duration clipName thrown_before_try. subst thrown_before_try.
  destruct (falsy url || is_undefined startTime || falsy duration) eqn:Hv.
  { assert (Hno : ~ (falsy url = false /\ is_undefined startTime = false /\
                     falsy duration = false /\
                     (~ name_or_nothing clipName \/
                      ToString_ok startTime = false \/ ToString_ok duration = false))).
    { intros (Hurl & Hst & Hdur & _). rewrite Hurl, Hst, Hdur in Hv. discriminate. }
    split; [|intros H; contradiction].
    unfold create_clip. fold url. fold startTime. fold duration. rewrite Hv.
    split; [intros [e He]; discriminate|intros H; contradiction]. }
  apply orb_false_elim in Hv. destruct Hv as [Hv Hdur].
  apply orb_false_elim in Hv. destruct Hv as [Hurl Hst].
  rewrite (create_clip_run E now req_body w Hurl Hst Hdur).
  fold url. fold startTime. fold duration. fold clipName. cbv zeta.
  destruct (safeName_of clipName) as [name|e0] eqn:Hname.
  - pose proof (safeName_of_Ok clipName name Hname) as Hnn.
    destruct (ToString_ok startTime) eqn:Hs1; cbn [andb].
    + destruct (ToString_ok duration) eqn:Hs2.
      * assert (Hok : forall out : result unit * world,
                   fst out = Ok tt ->
                   ((exists e, fst out = Err e) <->
                    falsy url = false /\ is_undefined startTime = false /\
                    falsy duration = false /\
                    (~ name_or_nothing clipName \/ true = false \/ true = false)) /\
                   (falsy url = false /\ is_undefined startTime = false /\
                    falsy duration = false /\
                    (~ name_or_nothing clipName \/ true = false \/ true = false) ->
                    out = (Err TypeError, w))).
        { intros out Hout.
          assert (Hno : ~ (falsy url = false /\ is_undefined startTime = false /\
                           falsy duration = false /\
                           (~ name_or_nothing clipName \/ true = false \/ true = false))).
          { intros (_ & _ & _ & [H|[H|H]]); [contradiction|discriminate|discriminate]. }
          split; [|intros H; contradiction].
          split; [intros [e He]; congruence|intros H; contradiction]. }
        apply Hok.
        destruct (ToString_ok url); [|reflexivity].
        destruct (child_process E _ (disk w)) as [e|[e|] out after]; try reflexivity.
        destruct (lookup_path after _) as [n|]; [destruct (node_kind n)|]; reflexivity.
      * split; [|intros _; reflexivity].
        split; [intros _; auto 6|intros _; eexists; reflexivity].
    + split; [|intros _; reflexivity].
      split; [intros _; auto 6|intros _; eexists; reflexivity].
  - assert (Hno : ~ name_or_nothing clipName).
    { intros Hn. unfold safeName_of, or_else, name_or_nothing in *.
      destruct Hn as [Hf|[s0 ->]].
      - rewrite Hf in Hname. discriminate.
      - destruct (falsy (Some (VStr s0))); discriminate. }
    assert (He : e0 = TypeError).
    { unfold safeName_of in Hname.
      destruct (or_else clipName (Some (VStr (lit "clip")))) as [[| | |s0| |]|];
        congruence. }
    subst e0.
    split; [|intros _; reflexivity].
    split; [intros _; auto 6|intros _; eexists; reflexivity].
Qed.

Lemma create_clip_unanswered_iff_witness :
  run (create_clip env_prose 1700000000000
         [(lit "url", VStr (lit "x"));
          (lit "startTime", VObj [(lit "toString", VNum 1)]);
          (lit "duration", VNum 30)]) fresh_world
  = (Err TypeError, fresh_world).
Proof.
  apply (create_clip_unanswered_iff env_prose 1700000000000
           [(lit "url", VStr (lit "x"));
            (lit "startTime", VObj [(lit "toString", VNum 1)]);
            (lit "duration", VNum 30)] fresh_world).
  split; [reflexivity|]. split; [reflexivity|]. split; [reflexivity|].
  right. left. reflexivity.
Defined.

(** ** The audio file name *)

(** X24. Two analyze-video requests use the same temporary audio file exactly
    when they read the same millisecond from the clock. *)
Theorem audioFile_same_iff (t1 t2 : Z) :
  audioFile_of t1 = audioFile_of t2 <-> t1 = t2.
Proof.
  split; [|intros ->; reflexivity].
  unfold audioFile_of. intros [= H].
  apply app_inv_tail in H.
  apply Number_toString_inj. exact H.
Qed.
